(** * OpenNMT-tf: learning-rate decay schedules and the training loop

    A shallow embedding of [opennmt/utils/decay.py] and of
    [opennmt/training.py], with the properties of their specification.

    - Module [Decay] embeds the four [LearningRateSchedule] classes.  Their
      [tf.float32] arithmetic is read over the real numbers: rounding,
      infinities and NaN are not part of the model.  [tf.pow] is [Rpower],
      which agrees with the mathematical power at positive bases only, and
      [x / 0] is the (unspecified, total) division of [R]; statements that
      depend on either carry the positivity of the base or divisor as a
      hypothesis.
    - Module [Training] embeds [Trainer.__call__] as a state-passing loop
      over the batches of a finite dataset, with the model, the optimizer's
      update rule, the clock and the replica reduction as parameters. *)

From Stdlib Require Import ZArith Reals Lra Lia List.
From stdpp Require Import gmap strings list fin_maps.
From Stdlib Require Import Sorted.

(* ===================================================================== *)
(** ** Decay schedules ([opennmt/utils/decay.py])                        *)
(* ===================================================================== *)

Module Decay.

Local Open Scope R_scope.

(** *** TensorFlow operations, over the reals *)

(** [tf.cast(step, tf.float32)] of an integer step. *)
Definition tf_cast (step : Z) : R := IZR step.
Definition tf_pow (x y : R) : R := Rpower x y.
Definition tf_minimum (x y : R) : R := Rmin x y.
Definition tf_maximum (x y : R) : R := Rmax x y.
Definition tf_rsqrt (x : R) : R := / sqrt x.
Definition tf_cos (x : R) : R := cos x.
Definition np_pi : R := PI.
(** [tf.less(x, y)], the condition of [tf.cond]. *)
Definition tf_less (x y : R) : bool := if Rlt_dec x y then true else false.

(** *** Methods as computations over the receiver

    A method body runs against the object [self]: it may read its
    attributes and could assign them.  [method S A] is a computation on a
    receiver of class [S] that returns an [A] together with the receiver
    as the call leaves it. *)

Definition method (S A : Type) : Type := S -> A * S.

Definition ret {S A : Type} (a : A) : method S A := fun self => (a, self).

Definition bind {S A B : Type} (m : method S A) (k : A -> method S B)
  : method S B :=
  fun self => let (a, self') := m self in k a self'.

(** Reading the attribute [f] of [self]. *)
Definition attr {S A : Type} (f : S -> A) : method S A :=
  fun self => (f self, self).

Notation "x <- m ;; k" := (bind m (fun x => k))
  (at level 100, m at next level, right associativity).

(** *** NoamDecay *)

Record NoamDecay : Type := mkNoamDecay {
  noam_scale : R;
  noam_model_dim : R;
  noam_warmup_steps : R
}.

Definition NoamDecay_init (scale model_dim warmup_steps : R) : NoamDecay :=
  {| noam_scale := scale;
     noam_model_dim := model_dim;
     noam_warmup_steps := warmup_steps |}.

Definition NoamDecay_call (step : Z) : method NoamDecay R :=
  let step := tf_cast (step + 1) in
  scale <- attr noam_scale ;;
  model_dim <- attr noam_model_dim ;;
  warmup_steps <- attr noam_warmup_steps ;;
  ret (scale
       * tf_pow model_dim (-0.5)
       * tf_minimum (tf_pow step (-0.5)) (step * tf_pow warmup_steps (-1.5))).

(** *** RsqrtDecay *)

Record RsqrtDecay : Type := mkRsqrtDecay {
  rsqrt_scale : R;
  rsqrt_warmup_steps : R
}.

Definition RsqrtDecay_init (scale warmup_steps : R) : RsqrtDecay :=
  {| rsqrt_scale := scale; rsqrt_warmup_steps := warmup_steps |}.

Definition RsqrtDecay_call (step : Z) : method RsqrtDecay R :=
  let step := tf_cast step in
  scale <- attr rsqrt_scale ;;
  warmup_steps <- attr rsqrt_warmup_steps ;;
  ret (scale * tf_rsqrt (tf_maximum step warmup_steps)).

(** *** CosineAnnealing *)

Record CosineAnnealing : Type := mkCosineAnnealing {
  cos_eta_max : R;
  cos_eta_min : R;
  cos_max_step : R;
  cos_warmup_steps : option R
}.

Definition CosineAnnealing_init (eta_max eta_min max_step : R)
    (warmup_steps : option R) : CosineAnnealing :=
  {| cos_eta_max := eta_max;
     cos_eta_min := eta_min;
     cos_max_step := max_step;
     cos_warmup_steps := warmup_steps |}.

Definition CosineAnnealing_call (step : Z) : method CosineAnnealing R :=
  let step := tf_cast step in
  eta_max <- attr cos_eta_max ;;
  eta_min <- attr cos_eta_min ;;
  max_step <- attr cos_max_step ;;
  warmup_steps <- attr cos_warmup_steps ;;
  let annealing :=
    eta_min
    + 0.5 * (eta_max - eta_min) * (1 + tf_cos (np_pi * step / max_step)) in
  match warmup_steps with
  | None => ret annealing
  | Some warmup =>
      let linear := eta_max * step / warmup in
      ret (if tf_less step warmup then linear else annealing)
  end.

(** *** RNMTPlusDecay *)

Record RNMTPlusDecay : Type := mkRNMTPlusDecay {
  rnmt_scale : R;
  rnmt_num_replicas : R;
  rnmt_warmup_steps : R;
  rnmt_start_step : R;
  rnmt_end_step : R
}.

Definition RNMTPlusDecay_init (scale num_replicas warmup_steps start_step
    end_step : R) : RNMTPlusDecay :=
  {| rnmt_scale := scale;
     rnmt_num_replicas := num_replicas;
     rnmt_warmup_steps := warmup_steps;
     rnmt_start_step := start_step;
     rnmt_end_step := end_step |}.

Definition RNMTPlusDecay_call (step : Z) : method RNMTPlusDecay R :=
  let t := tf_cast step in
  n <- attr rnmt_num_replicas ;;
  p <- attr rnmt_warmup_steps ;;
  s <- attr rnmt_start_step ;;
  e <- attr rnmt_end_step ;;
  scale <- attr rnmt_scale ;;
  ret (scale * tf_minimum
         (tf_minimum (1 + (t * (n - 1)) / (n * p)) n)
         (n * tf_pow (2 * n) ((s - n * t) / (e - s)))).

(** *** The schedule interface

    [tf.optimizers.schedules.LearningRateSchedule]: the one capability is
    evaluation at a step. *)

Class LearningRateSchedule (S : Type) : Type :=
  call : Z -> method S R.

#[global] Instance NoamDecay_schedule : LearningRateSchedule NoamDecay :=
  NoamDecay_call.
#[global] Instance RsqrtDecay_schedule : LearningRateSchedule RsqrtDecay :=
  RsqrtDecay_call.
#[global] Instance CosineAnnealing_schedule
  : LearningRateSchedule CosineAnnealing := CosineAnnealing_call.
#[global] Instance RNMTPlusDecay_schedule
  : LearningRateSchedule RNMTPlusDecay := RNMTPlusDecay_call.

(** The learning rate a schedule yields at a step. *)
Definition rate {S : Type} `{LearningRateSchedule S} (self : S) (step : Z)
  : R := fst (call step self).

(** The four variants as one tagged union. *)
Inductive schedule : Type :=
| Noam (d : NoamDecay)
| Rsqrt (d : RsqrtDecay)
| Cosine (d : CosineAnnealing)
| RNMTPlus (d : RNMTPlusDecay).

Definition schedule_call (step : Z) : method schedule R :=
  fun self =>
    match self with
    | Noam d => let (v, d') := call step d in (v, Noam d')
    | Rsqrt d => let (v, d') := call step d in (v, Rsqrt d')
    | Cosine d => let (v, d') := call step d in (v, Cosine d')
    | RNMTPlus d => let (v, d') := call step d in (v, RNMTPlus d')
    end.

(** The receiver after evaluating the schedule at each step of [steps] in
    turn. *)
Definition after_calls (steps : list Z) (self : schedule) : schedule :=
  fold_left (fun self step => snd (schedule_call step self)) steps self.

(** *** The formulas as the specification writes them *)

Definition noam_formula (scale dim warmup step : R) : R :=
  scale * Rpower dim (-0.5)
  * Rmin (Rpower step (-0.5)) (step * Rpower warmup (-1.5)).

Definition rsqrt_formula (scale warmup step : R) : R :=
  scale * Rpower (Rmax step warmup) (-0.5).

Definition cosine_linear_formula (eta_max warmup step : R) : R :=
  eta_max * step / warmup.

Definition cosine_annealing_formula (eta_max eta_min max_step step : R) : R :=
  eta_min + 0.5 * (eta_max - eta_min) * (1 + cos (PI * step / max_step)).

(** The three-way minimum of the RNMTPlus schedule, with the base of the
    exponential-decay term left open. *)
Definition rnmtplus_formula (base scale replicas warmup start end_ step : R)
  : R :=
  scale * Rmin (1 + step * (replicas - 1) / (replicas * warmup))
            (Rmin replicas
               (replicas * Rpower base ((start - replicas * step)
                                        / (end_ - start)))).

End Decay.

(* ===================================================================== *)
(** ** The training loop ([opennmt/training.py])                         *)
(* ===================================================================== *)

Module Training.

Local Open Scope Z_scope.

(** *** Data *)

(** One side of a batch: a mapping from feature names to integer tensors
    (flattened); it may or may not hold a ["length"] entry. *)
Abbreviation features := (gmap string (list Z)).

Record batch : Type := mkBatch {
  source : features;
  target : features
}.

(** A learning rate is a scalar or a schedule evaluated at a step
    ([isinstance(learning_rate, LearningRateSchedule)]). *)
Inductive LearningRate (scalar : Type) : Type :=
| Constant (value : scalar)
| Schedule (f : Z -> scalar).
Arguments Constant {scalar} value.
Arguments Schedule {scalar} f.

(** The collaborators of the trainer: TensorFlow's tensors, the model, the
    optimizer's update rule and the clock. *)
Class Collaborators : Type := {
  tensor : Type;
  scalar : Type;
  slots : Type;
  time : Type;
  (** [tf.zeros_like] and the sum [assign_add] stores. *)
  zeros_like : tensor -> tensor;
  tensor_add : tensor -> tensor -> tensor;
  (** [loss[0] / loss[1]]. *)
  truediv : scalar -> scalar -> scalar;
  (** [strategy.reduce(ReduceOp.MEAN, ...)] over the replicas' losses. *)
  reduce_mean : list scalar -> scalar;
  (** The model called in training mode on a batch, at the variables and
      the step given, followed by [compute_loss]: numerator, denominator. *)
  model_loss : list tensor -> Z -> batch -> scalar * scalar;
  (** [compute_gradients] of the normalized loss of that batch with respect
      to the variables, one gradient per variable. *)
  compute_gradients : list tensor -> Z -> batch -> list tensor;
  (** [optimizer.apply_gradients] on [(gradient, variable)] pairs at the
      given iteration: the optimizer's new slots and the new variables
      (the iteration counter itself is advanced in [_apply_gradients]). *)
  update : slots -> Z -> list (tensor * tensor) -> slots * list tensor;
  (** The value of the [n]-th read of [time.time()]. *)
  time_time : nat -> time;
  (** [int(value / (new_report_time - last_report_time))]. *)
  words_per_sec : Z -> time -> time -> Z
}.

(** What the run emits, in order. *)
Inductive event `{Collaborators} : Type :=
| LogWarning (max_step : Z)
| ReportStatus (step : Z) (loss : scalar) (learning_rate : scalar)
    (words_per_sec : gmap string Z)
| CheckpointSave (step : Z)
| Evaluate (step : Z).

(** The trainer with the objects it holds: the model's variables, the
    optimizer (iteration counter, learning rate, slots), and the world it
    writes to (clock reads so far, emitted events). *)
Record trainer `{Collaborators} : Type := mkTrainer {
  variables : list tensor;
  iterations : Z;
  learning_rate : LearningRate scalar;
  opt_slots : slots;
  clock : nat;
  trace : list event
}.

(** The arguments of [Trainer.__call__]; [evaluator] tells whether an
    evaluator is given (calling it is recorded as an [Evaluate] event). *)
Record args : Type := mkArgs {
  max_step : option Z;
  accum_steps : Z;
  report_steps : Z;
  save_steps : option Z;
  evaluator : bool;
  eval_steps : option Z
}.

Definition default_args : args :=
  {| max_step := None;
     accum_steps := 1;
     report_steps := 100;
     save_steps := Some 5000;
     evaluator := false;
     eval_steps := Some 5000 |}.

(** The frame of one call: the trainer and the local variables of
    [__call__]; [step] is unbound until the loop body assigns it. *)
Record frame `{Collaborators} : Type := mkFrame {
  self : trainer;
  gradients : list tensor;
  accum_num_words : gmap string Z;
  last_report_time : time;
  last_step : Z;
  step : option Z
}.

Inductive exn : Type :=
| ZeroDivisionError
| UnboundLocalError.

Inductive outcome : Type :=
| Returned
| Raised (e : exn).

(** How an iteration of the loop body ends. *)
Inductive control `{Collaborators} : Type :=
| Continue (fr : frame)
| Break (fr : frame)
| Raise (e : exn) (fr : frame).

(** How the [for] loop ends. *)
Inductive loop_exit : Type :=
| Exhausted
| Broke
| Failed (e : exn).

(** *** Integer remainders *)

(** [a % b] on Python integers: the sign of the divisor, and
    [ZeroDivisionError] (here [None]) at a zero divisor. *)
Definition py_mod (a b : Z) : option Z :=
  if b =? 0 then None else Some (a mod b).

(** [a % b] when [a] is a NumPy integer scalar ([iterations.numpy()]): the
    sign of the divisor, and [0] with a warning at a zero divisor. *)
Definition np_mod (a b : Z) : Z :=
  if b =? 0 then 0 else a mod b.

Section Trainer.

Context `{Collaborators}.

(** *** Record updates *)

Definition emit (e : event) (tr : trainer) : trainer :=
  {| variables := variables tr;
     iterations := iterations tr;
     learning_rate := learning_rate tr;
     opt_slots := opt_slots tr;
     clock := clock tr;
     trace := trace tr ++ [e] |}.

Definition tick (tr : trainer) : trainer :=
  {| variables := variables tr;
     iterations := iterations tr;
     learning_rate := learning_rate tr;
     opt_slots := opt_slots tr;
     clock := S (clock tr);
     trace := trace tr |}.

Definition with_self (tr : trainer) (fr : frame) : frame :=
  {| self := tr;
     gradients := gradients fr;
     accum_num_words := accum_num_words fr;
     last_report_time := last_report_time fr;
     last_step := last_step fr;
     step := step fr |}.

Definition with_gradients (gs : list tensor) (fr : frame) : frame :=
  {| self := self fr;
     gradients := gs;
     accum_num_words := accum_num_words fr;
     last_report_time := last_report_time fr;
     last_step := last_step fr;
     step := step fr |}.

Definition with_accum_num_words (m : gmap string Z) (fr : frame) : frame :=
  {| self := self fr;
     gradients := gradients fr;
     accum_num_words := m;
     last_report_time := last_report_time fr;
     last_step := last_step fr;
     step := step fr |}.

Definition with_last_report_time (t : time) (fr : frame) : frame :=
  {| self := self fr;
     gradients := gradients fr;
     accum_num_words := accum_num_words fr;
     last_report_time := t;
     last_step := last_step fr;
     step := step fr |}.

Definition with_last_step (s : Z) (fr : frame) : frame :=
  {| self := self fr;
     gradients := gradients fr;
     accum_num_words := accum_num_words fr;
     last_report_time := last_report_time fr;
     last_step := s;
     step := step fr |}.

Definition with_step (s : Z) (fr : frame) : frame :=
  {| self := self fr;
     gradients := gradients fr;
     accum_num_words := accum_num_words fr;
     last_report_time := last_report_time fr;
     last_step := last_step fr;
     step := Some s |}.

(** *** The nested functions of [__call__] *)

(** [for gradient, step_gradient in zip(gradients, step_gradients):
    gradient.assign_add(step_gradient)]; [zip] stops at the shorter
    sequence, the remaining accumulators keep their value. *)
Fixpoint assign_add (gradients step_gradients : list tensor) : list tensor :=
  match gradients, step_gradients with
  | gradient :: gradients', step_gradient :: step_gradients' =>
      tensor_add gradient step_gradient
      :: assign_add gradients' step_gradients'
  | _, _ => gradients
  end.

(** [tf.reduce_sum] of an integer tensor. *)
Definition reduce_sum (t : list Z) : Z := fold_right Z.add 0 t.

(** The word counts of a batch: a side without a ["length"] entry
    contributes no key. *)
Definition count_words (b : batch) : gmap string Z :=
  let num_words : gmap string Z := ∅ in
  let num_words :=
    match source b !! "length" with
    | Some length => <["source" := reduce_sum length]> num_words
    | None => num_words
    end in
  match target b !! "length" with
  | Some length => <["target" := reduce_sum length]> num_words
  | None => num_words
  end.

(** [_accumulate_gradients(source, target)], on one replica. *)
Definition _accumulate_gradients (b : batch) (fr : frame)
  : (scalar * gmap string Z) * frame :=
  let tr := self fr in
  let loss := model_loss (variables tr) (iterations tr) b in
  let loss := truediv (fst loss) (snd loss) in
  let step_gradients := compute_gradients (variables tr) (iterations tr) b in
  let fr := with_gradients (assign_add (gradients fr) step_gradients) fr in
  ((loss, count_words b), fr).

(** [_apply_gradients()]: [optimizer.apply_gradients] updates the
    variables from the accumulated gradients and, as every TensorFlow
    optimizer does, advances [optimizer.iterations] by one; then every
    accumulator is reset to zeros. *)
Definition _apply_gradients (fr : frame) : frame :=
  let tr := self fr in
  let '(slots', variables') :=
    update (opt_slots tr) (iterations tr)
      (combine (gradients fr) (variables tr)) in
  let tr :=
    {| variables := variables';
       iterations := iterations tr + 1;
       learning_rate := learning_rate tr;
       opt_slots := slots';
       clock := clock tr;
       trace := trace tr |} in
  with_gradients (map zeros_like (gradients fr)) (with_self tr fr).

(** [strategy.experimental_run_v2(_accumulate_gradients, ...)]: every
    replica runs the function on its share of the element, all against
    the same variables and the same accumulators. *)
Fixpoint run_replicas (element : list batch) (fr : frame)
  : list (scalar * gmap string Z) * frame :=
  match element with
  | [] => ([], fr)
  | b :: element' =>
      let '(out, fr) := _accumulate_gradients b fr in
      let '(outs, fr) := run_replicas element' fr in
      (out :: outs, fr)
  end.

(** [strategy.reduce(ReduceOp.SUM, v, None)] for every key of the
    replicas' word counts (the replicas return the same keys). *)
Definition reduce_sum_words (per_replica_words : list (gmap string Z))
  : gmap string Z :=
  fold_right (union_with (fun v acc => Some (v + acc))) ∅ per_replica_words.

(** The body of [_forward(next_fn)] on the element [next_fn()] returned. *)
Definition _forward (element : list batch) (fr : frame)
  : (scalar * gmap string Z) * frame :=
  let '(per_replica, fr) := run_replicas element fr in
  let loss := reduce_mean (map fst per_replica) in
  let num_words := reduce_sum_words (map snd per_replica) in
  ((loss, num_words), fr).

(** [_step()]. *)
Definition _step (fr : frame) : frame := _apply_gradients fr.

(** *** Reporting *)

(** [_report_training_status]: reads the clock, derives the words per
    second of every key, resets the (shared) word-count dictionary, resolves
    the learning rate, emits the report, and returns the new report time. *)
Definition _report_training_status (step : Z) (loss : scalar) (fr : frame)
  : time * frame :=
  let tr := self fr in
  let new_report_time := time_time (clock tr) in
  let tr := tick tr in
  let avg :=
    (fun value => words_per_sec value new_report_time (last_report_time fr))
      <$> accum_num_words fr in
  let fr := with_accum_num_words ((fun _ => 0) <$> accum_num_words fr) fr in
  let rate :=
    match learning_rate tr with
    | Schedule f => f step
    | Constant value => value
    end in
  let tr := emit (ReportStatus step loss rate avg) tr in
  (new_report_time, with_self tr fr).

(** [self._checkpoint.save(step)]. *)
Definition checkpoint_save (step : Z) (fr : frame) : frame :=
  with_self (emit (CheckpointSave step) (self fr)) fr.

(** [evaluator(step)]. *)
Definition evaluate (step : Z) (fr : frame) : frame :=
  with_self (emit (Evaluate step) (self fr)) fr.

(** *** The loop *)

Section Call.

Variable a : args.

(** [i == 0 or (i + 1) % accum_steps == 0]; [None] when the remainder
    raises. *)
Definition is_apply_step (i : nat) : option bool :=
  if (i =? 0)%nat then Some true
  else match py_mod (Z.of_nat i + 1) (accum_steps a) with
       | Some r => Some (r =? 0)
       | None => None
       end.

(** [for key, value in six.iteritems(num_words):
    accum_num_words[key] += value.numpy()], on a [defaultdict(int)]. *)
Definition add_num_words (num_words accum : gmap string Z) : gmap string Z :=
  map_fold (fun key value accum =>
              <[key := default 0 (accum !! key) + value]> accum)
    accum num_words.

(** [if step % report_steps == 0: last_report_time =
    _report_training_status(...)]. *)
Definition report_if_due (step : Z) (loss : scalar) (fr : frame) : frame :=
  if np_mod step (report_steps a) =? 0 then
    let '(t, fr) := _report_training_status step loss fr in
    with_last_report_time t fr
  else fr.

(** [if save_steps is not None and step % save_steps == 0:
    self._checkpoint.save(step)]. *)
Definition save_if_due (step : Z) (fr : frame) : frame :=
  match save_steps a with
  | Some n => if np_mod step n =? 0 then checkpoint_save step fr else fr
  | None => fr
  end.

(** [if evaluator is not None and eval_steps is not None and
    step % eval_steps == 0: evaluator(step)]. *)
Definition evaluate_if_due (step : Z) (fr : frame) : frame :=
  match evaluator a, eval_steps a with
  | true, Some n => if np_mod step n =? 0 then evaluate step fr else fr
  | _, _ => fr
  end.

(** The three cadence actions of the loop body, in its order. *)
Definition post_processing (s : Z) (loss : scalar) (fr : frame) : frame :=
  evaluate_if_due s (save_if_due s (report_if_due s loss fr)).

(** The body of the [for] loop at index [i], for the [(loss, num_words)]
    the generator yielded. *)
Definition loop_body (i : nat) (loss : scalar) (num_words : gmap string Z)
    (fr : frame) : control :=
  match is_apply_step i with
  | None => Raise ZeroDivisionError fr
  | Some apply =>
      let fr := if apply then _step fr else fr in
      let fr :=
        with_accum_num_words (add_num_words num_words (accum_num_words fr))
          fr in
      let step := iterations (self fr) in
      let fr := with_step step fr in
      if step =? last_step fr then Continue fr
      else
        let fr := with_last_step step fr in
        let fr := report_if_due step loss fr in
        let fr := save_if_due step fr in
        let fr := evaluate_if_due step fr in
        match max_step a with
        | Some m => if step =? m then Break fr else Continue fr
        | None => Continue fr
        end
  end.

(** One micro-step: the generator computes the next [(loss, num_words)]
    (accumulating the gradients), then the loop body runs on it. *)
Definition micro_step (i : nat) (element : list batch) (fr : frame)
  : control :=
  let '((loss, num_words), fr) := _forward element fr in
  loop_body i loss num_words fr.

(** Modelled from the spec: [dataset_util.function_on_next]
    ([opennmt/data/dataset.py], not among the sources), under
    [enumerate] and the [for] statement.  The decorated [_forward] is a
    generator that draws the next element of the dataset, runs the function
    on it and yields the result, until the dataset is exhausted, which ends
    the iteration without an error; a [break] leaves the remaining elements
    undrawn. *)
Fixpoint train_loop (i : nat) (dataset : list (list batch)) (fr : frame)
  : frame * loop_exit :=
  match dataset with
  | [] => (fr, Exhausted)
  | element :: dataset' =>
      match micro_step i element fr with
      | Continue fr => train_loop (S i) dataset' fr
      | Break fr => (fr, Broke)
      | Raise e fr => (fr, Failed e)
      end
  end.

(** The frame at the start of the loop: zeroed accumulators, an empty
    word-count dictionary, the clock read once, [last_step = 0]. *)
Definition enter (tr : trainer) : frame :=
  {| self := tick tr;
     gradients := map zeros_like (variables tr);
     accum_num_words := ∅;
     last_report_time := time_time (clock tr);
     last_step := 0;
     step := None |}.

(** [max_step is not None and iterations >= max_step]. *)
Definition already_reached (tr : trainer) : option Z :=
  match max_step a with
  | Some m => if iterations tr >=? m then Some m else None
  | None => None
  end.

(** [Trainer.__call__(dataset, ...)]: the trainer as the call leaves it,
    and whether the call returned or raised. *)
Definition Trainer_call (tr : trainer) (dataset : list (list batch))
  : trainer * outcome :=
  match already_reached tr with
  | Some m => (emit (LogWarning m) tr, Returned)
  | None =>
      match train_loop 0 dataset (enter tr) with
      | (fr, Failed e) => (self fr, Raised e)
      | (fr, _) =>
          match step fr with
          | Some s => (self (checkpoint_save s fr), Returned)
          | None => (self fr, Raised UnboundLocalError)
          end
      end
  end.

End Call.

(** *** Observations on a trace *)

(** The steps of the checkpoints saved, in order. *)
Definition saved_steps (t : list event) : list Z :=
  flat_map (fun e => match e with CheckpointSave s => [s] | _ => [] end) t.

(** How many checkpoints of a trace are tagged with the step [s]. *)
Definition saves_at (s : Z) (t : list event) : nat :=
  count_occ Z.eq_dec (saved_steps t) s.

(** The checkpoints tagged [m] that the [save_steps] cadence saves at the
    observed step [s]: one when [s] is [m] and the cadence is due. *)
Definition cadence_saves (a : args) (m s : Z) : nat :=
  match save_steps a with
  | Some n => if (np_mod s n =? 0) && (s =? m) then 1%nat else 0%nat
  | None => 0%nat
  end.

(** The frame an iteration leaves behind, however it ends. *)
Definition frame_of (c : control) : frame :=
  match c with
  | Continue fr | Break fr | Raise _ fr => fr
  end.

(** [i == 0], or the 1-based index [i + 1] is a multiple of [accum]. *)
Definition application_point (accum : Z) (i : nat) : Prop :=
  i = 0%nat \/ (accum | Z.of_nat i + 1).

(** How many of the [n] micro-steps from index [i] on are application
    points, for a non-zero [accum]. *)
Fixpoint applications (accum : Z) (i n : nat) : Z :=
  match n with
  | O => 0
  | S n' =>
      (if (i =? 0)%nat || ((Z.of_nat i + 1) mod accum =? 0) then 1 else 0)
      + applications accum (S i) n'
  end.

End Trainer.

(** *** Cadences *)

(** The cadence [n] is due at the step [s]: [s % n == 0], with NumPy's
    remainder (a zero cadence is always due). *)
Definition due (s n : Z) : Prop := n = 0 \/ (n | s).

(** An event of the loop is on cadence when the loop's arguments ask for
    it at its step; the loop itself never logs the warning. *)
Definition on_cadence `{Collaborators} (a : args) (e : event) : Prop :=
  match e with
  | ReportStatus s _ _ _ => due s (report_steps a)
  | CheckpointSave s => exists n, save_steps a = Some n /\ due s n
  | Evaluate s =>
      evaluator a = true /\ exists n, eval_steps a = Some n /\ due s n
  | LogWarning _ => False
  end.


(** A report is well formed for a learning rate [lr] when it carries [lr]
    resolved at the reported step (a schedule is evaluated there, a scalar
    is used as it is) and words per second computed, for every key of
    some totals, over the interval between two consecutive clock reads. *)
Definition well_reported `{Collaborators} (lr : LearningRate scalar)
    (e : event) : Prop :=
  match e with
  | ReportStatus s _ rate avg =>
      rate = match lr with
             | Schedule f => f s
             | Constant value => value
             end
      /\ exists (j : nat) (totals : gmap string Z),
           avg = (fun value =>
                    words_per_sec value (time_time (S j)) (time_time j))
                 <$> totals
  | _ => True
  end.


(** *** Construction ([Trainer.__init__]) *)

(** A logical device as [tf.config.experimental.list_logical_devices]
    returns it. *)
Record LogicalDevice : Type := mkLogicalDevice {
  name : string;
  device_type : string
}.

(** The checkpoint handed to the trainer; its optimizer may be [None]. *)
Record Checkpoint (M O : Type) : Type := mkCheckpoint {
  model : M;
  optimizer : option O;
  model_dir : string
}.
Arguments model {M O} _.
Arguments optimizer {M O} _.
Arguments model_dir {M O} _.

(** The attributes [__init__] sets; the strategy and the summary writer
    are kept as the devices and the directory they are created with. *)
Record Trainer (M O : Type) : Type := mkTrainerObject {
  _checkpoint : Checkpoint M O;
  _model : M;
  _optimizer : O;
  _strategy : list string;
  _summary_writer : string
}.
Arguments _checkpoint {M O} _.
Arguments _model {M O} _.
Arguments _optimizer {M O} _.
Arguments _strategy {M O} _.
Arguments _summary_writer {M O} _.

Inductive init_exn : Type :=
| ValueError (message : string)
| IndexError.

(** [tf.config.experimental.list_logical_devices(device_type=...)] on a
    host with the logical devices [host]. *)
Definition list_logical_devices (host : list LogicalDevice)
    (type : string) : list LogicalDevice :=
  List.filter (fun d => String.eqb (device_type d) type) host.

(** [not devices]: true of [None] and of the empty list. *)
Definition falsy {A : Type} (devices : option (list A)) : bool :=
  match devices with
  | None | Some [] => true
  | Some (_ :: _) => false
  end.

(** [Trainer.__init__(checkpoint, devices)] on a host. *)
Definition Trainer_init {M O : Type} (host : list LogicalDevice)
    (checkpoint : Checkpoint M O) (devices : option (list string))
  : init_exn + Trainer M O :=
  match optimizer checkpoint with
  | None => inl (ValueError "No optimizer is defined")
  | Some the_optimizer =>
      let devices : init_exn + list string :=
        if falsy devices then
          let devices := list_logical_devices host "GPU" in
          let devices :=
            match devices with
            | [] => list_logical_devices host "CPU"
            | _ :: _ => devices
            end in
          match devices with
          | [] => inl IndexError
          | d :: _ => inr [name d]
          end
        else inr (default [] devices) in
      match devices with
      | inl e => inl e
      | inr devices =>
          inr {| _checkpoint := checkpoint;
                 _model := model checkpoint;
                 _optimizer := the_optimizer;
                 _strategy := devices;
                 _summary_writer := model_dir checkpoint |}
      end
  end.


(** *** A concrete setting

    Scalar tensors and losses over [Z], plain gradient descent, a clock
    that advances by one at each read: enough to run the loop. *)

Module Example.

Definition collaborators : Collaborators :=
  {| tensor := Z;
     scalar := Z;
     slots := unit;
     time := Z;
     zeros_like := fun _ => 0;
     tensor_add := Z.add;
     truediv := Z.div;
     reduce_mean := fun l => fold_right Z.add 0 l / Z.of_nat (length l);
     model_loss := fun _ _ b =>
       (reduce_sum (default [] (target b !! "length")), 1);
     compute_gradients := fun variables _ _ => map (fun _ => 1) variables;
     update := fun _ _ pairs =>
       (tt, map (fun p : Z * Z => snd p - fst p) pairs);
     time_time := fun n => Z.of_nat n;
     words_per_sec := fun value new last => value / (new - last) |}.

(** A batch of two source sentences (3 and 4 words) and two target
    sentences (5 and 6 words). *)
Definition a_batch : batch :=
  {| source := {["length" := [3; 4]]};
     target := {["length" := [5; 6]]} |}.

(** A dataset of [n] elements, each one batch on a single replica. *)
Definition dataset (n : nat) : list (list batch) := repeat [a_batch] n.

(** A trainer on one variable, at iteration [it]. *)
Definition trainer_at (it : Z) : @trainer collaborators :=
  @mkTrainer collaborators [10] it (Constant 1) tt 0%nat [].

Definition with_accum (n : Z) : args :=
  {| max_step := None;
     accum_steps := n;
     report_steps := 100;
     save_steps := Some 5000;
     evaluator := false;
     eval_steps := Some 5000 |}.

Definition with_accum_3 : args := with_accum 3.

Definition with_save_steps (n : Z) : args :=
  {| max_step := None;
     accum_steps := 1;
     report_steps := 100;
     save_steps := Some n;
     evaluator := false;
     eval_steps := Some 5000 |}.

Definition with_max_step (m : Z) (save : Z) : args :=
  {| max_step := Some m;
     accum_steps := 1;
     report_steps := 100;
     save_steps := Some save;
     evaluator := false;
     eval_steps := Some 5000 |}.

(** The frame after the first micro-step of a run with
    [accum_steps = 3] from iteration 0: the counter and [last_step] are 1. *)
Definition after_first_step : @frame collaborators :=
  fst (train_loop with_accum_3 0 (dataset 1) (enter (trainer_at 0))).

End Example.

End Training.

(* ===================================================================== *)
(** ** Properties of the decay schedules                                 *)
(* ===================================================================== *)

Module DecayProperties.

Import Decay.
Local Open Scope R_scope.

(** *** Powers with the exponents the schedules use *)

Lemma Rpower_neg_half (x : R) : 0 < x -> Rpower x (-0.5) = / sqrt x.
Proof.
  intros Hx. replace (-0.5) with (- / 2) by lra.
  now rewrite Rpower_Ropp, Rpower_sqrt.
Qed.

Lemma Rpower_base_1 (y : R) : Rpower 1 y = 1.
Proof. unfold Rpower. now rewrite ln_1, Rmult_0_r, exp_0. Qed.

Lemma Rpower_pos (x y : R) : 0 < Rpower x y.
Proof. unfold Rpower. apply exp_pos. Qed.

Lemma Rpower_le_1 (x y : R) : 1 <= x -> y <= 0 -> Rpower x y <= 1.
Proof.
  intros Hx Hy. rewrite <- (Rpower_O x) by lra. now apply Rle_Rpower.
Qed.

Lemma Rpower_neg_nat (x : R) (n : nat) :
  0 < x -> Rpower x (- INR n) = / x ^ n.
Proof. intros Hx. now rewrite Rpower_Ropp, Rpower_pow. Qed.

(** *** The value of each schedule, unfolded *)

Lemma rate_Noam (scale dim warmup : R) (s : Z) :
  rate (NoamDecay_init scale dim warmup) s
  = scale * Rpower dim (-0.5)
    * Rmin (Rpower (IZR (s + 1)) (-0.5))
        (IZR (s + 1) * Rpower warmup (-1.5)).
Proof. reflexivity. Qed.

Lemma rate_Rsqrt (scale warmup : R) (s : Z) :
  rate (RsqrtDecay_init scale warmup) s
  = scale * / sqrt (Rmax (IZR s) warmup).
Proof. reflexivity. Qed.

Lemma rate_Cosine_no_warmup (eta_max eta_min max_step : R) (s : Z) :
  rate (CosineAnnealing_init eta_max eta_min max_step None) s
  = eta_min + 0.5 * (eta_max - eta_min) * (1 + cos (PI * IZR s / max_step)).
Proof. reflexivity. Qed.

Lemma rate_Cosine_warmup (eta_max eta_min max_step w : R) (s : Z) :
  rate (CosineAnnealing_init eta_max eta_min max_step (Some w)) s
  = if Rlt_dec (IZR s) w then eta_max * IZR s / w
    else eta_min
         + 0.5 * (eta_max - eta_min) * (1 + cos (PI * IZR s / max_step)).
Proof.
  unfold rate, call, CosineAnnealing_schedule, CosineAnnealing_call.
  cbn. unfold tf_less, tf_cast. now destruct (Rlt_dec (IZR s) w).
Qed.

Lemma rate_RNMTPlus (scale n p s e : R) (t : Z) :
  rate (RNMTPlusDecay_init scale n p s e) t
  = scale * Rmin (Rmin (1 + (IZR t * (n - 1)) / (n * p)) n)
              (n * Rpower (2 * n) ((s - n * IZR t) / (e - s))).
Proof. reflexivity. Qed.

(** *** Noam *)

(** C6.  The Noam schedule evaluates the formula at the caller's step
    incremented by one: [scale * dim^-0.5 * min((s+1)^-0.5,
    (s+1) * warmup^-1.5)].  With [scale = 1], [dim = 512] and
    [warmup = 4000] the value at step 0 is
    [512^-0.5 * min(1, 4000^-1.5)], and at every step of [0, 10^6] the
    value is non-negative and bounded (by 1), every power being taken at a
    positive base. *)
Theorem noam_decay_value :
  (forall (scale dim warmup : R) (s : Z),
      rate (NoamDecay_init scale dim warmup) s
      = noam_formula scale dim warmup (IZR s + 1))
  /\ rate (NoamDecay_init 1 512 4000) 0
     = Rpower 512 (-0.5) * Rmin 1 (Rpower 4000 (-1.5))
  /\ (forall s : Z,
        (0 <= s <= 10 ^ 6)%Z ->
        0 < tf_cast (s + 1)
        /\ 0 <= rate (NoamDecay_init 1 512 4000) s <= 1).
Proof.
  split; [| split].
  - intros scale dim warmup s. rewrite rate_Noam. unfold noam_formula.
    now rewrite plus_IZR.
  - rewrite rate_Noam. simpl (0 + 1)%Z.
    rewrite Rpower_base_1. now rewrite !Rmult_1_l.
  - intros s [Hlo Hhi]. rewrite rate_Noam.
    assert (Hx : 1 <= IZR (s + 1)) by (apply IZR_le; lia).
    pose proof (Rpower_pos 512 (-0.5)) as Hd.
    pose proof (Rpower_le_1 512 (-0.5) ltac:(lra) ltac:(lra)) as Hd1.
    pose proof (Rpower_pos (IZR (s + 1)) (-0.5)) as Ha.
    pose proof (Rpower_le_1 (IZR (s + 1)) (-0.5) Hx ltac:(lra)) as Ha1.
    pose proof (Rpower_pos 4000 (-1.5)) as Hw.
    set (m := Rmin _ _).
    assert (Hm : 0 < m <= 1).
    { split.
      - apply Rmin_glb_lt; [exact Ha |]. apply Rmult_lt_0_compat; lra.
      - eapply Rle_trans; [apply Rmin_l | exact Ha1]. }
    unfold tf_cast. split; [lra |]. rewrite Rmult_1_l. split; [nra | nra].
Qed.

(** The claim at a concrete step. *)
Lemma noam_decay_value_witness :
  0 < tf_cast (7 + 1) /\ 0 <= rate (NoamDecay_init 1 512 4000) 7 <= 1.
Proof.
  apply (proj2 (proj2 noam_decay_value) 7%Z). lia.
Defined.

(** *** Rsqrt *)



(** *** CosineAnnealing *)

(** C7.  With a warmup configured and [step < warmup] the value is
    [eta_max * step / warmup]; otherwise (no warmup, or the step at or past
    it) the value is [eta_min + 0.5 * (eta_max - eta_min) *
    (1 + cos(pi * step / max_step))].  With [eta_max = 1], [eta_min = 0],
    [max_step = 1000] and no warmup, the value is 1 at step 0, 0 at step
    1000, and non-increasing over [0, 1000]. *)
Theorem cosine_annealing_value :
  (forall (eta_max eta_min max_step w : R) (step : Z),
      IZR step < w ->
      rate (CosineAnnealing_init eta_max eta_min max_step (Some w)) step
      = cosine_linear_formula eta_max w (IZR step))
  /\ (forall (eta_max eta_min max_step : R) (warmup : option R) (step : Z),
        match warmup with
        | Some w => w <= IZR step
        | None => True
        end ->
        rate (CosineAnnealing_init eta_max eta_min max_step warmup) step
        = cosine_annealing_formula eta_max eta_min max_step (IZR step))
  /\ rate (CosineAnnealing_init 1 0 1000 None) 0 = 1
  /\ rate (CosineAnnealing_init 1 0 1000 None) 1000 = 0
  /\ (forall step step' : Z,
        (0 <= step <= step')%Z -> (step' <= 1000)%Z ->
        rate (CosineAnnealing_init 1 0 1000 None) step'
        <= rate (CosineAnnealing_init 1 0 1000 None) step).
Proof.
  repeat split.
  - intros eta_max eta_min max_step w step Hlt.
    rewrite rate_Cosine_warmup. now destruct (Rlt_dec (IZR step) w).
  - intros eta_max eta_min max_step [w |] step Hge.
    + rewrite rate_Cosine_warmup.
      destruct (Rlt_dec (IZR step) w); [lra | reflexivity].
    + apply rate_Cosine_no_warmup.
  - rewrite rate_Cosine_no_warmup.
    replace (PI * 0 / 1000) with 0 by lra. rewrite cos_0. lra.
  - rewrite rate_Cosine_no_warmup.
    replace (PI * 1000 / 1000) with PI by lra. rewrite cos_PI. lra.
  - intros step step' [Hlo Hle] Hhi. rewrite !rate_Cosine_no_warmup.
    pose proof PI_RGT_0 as Hpi.
    assert (H0 : 0 <= IZR step) by now apply IZR_le.
    assert (H1 : IZR step <= IZR step') by now apply IZR_le.
    assert (H2 : IZR step' <= 1000) by now apply IZR_le.
    assert (Hcos : cos (PI * IZR step' / 1000) <= cos (PI * IZR step / 1000)).
    { apply cos_decr_1; nra. }
    lra.
Qed.

(** The claim's branches at concrete steps: the ramp at step 50 of a
    warmup of 100, and the decrease from step 250 to step 750. *)
Lemma cosine_annealing_value_witness :
  rate (CosineAnnealing_init 1 0 1000 (Some 100)) 50
  = cosine_linear_formula 1 100 50
  /\ rate (CosineAnnealing_init 1 0 1000 None) 750
     <= rate (CosineAnnealing_init 1 0 1000 None) 250.
Proof.
  pose proof cosine_annealing_value as (Hlin & _ & _ & _ & Hmono).
  split.
  - apply (Hlin 1 0 1000 100 50%Z). lra.
  - apply (Hmono 250%Z 750%Z); lia.
Defined.

(** *** RNMTPlus *)

(** C3 (as amended).  For every step [t] and hyperparameters, the
    RNMTPlus schedule evaluates to [scale * min(1 + t*(replicas-1) /
    (replicas*warmup), replicas, replicas * (2*replicas)^((start -
    replicas*t) / (end-start)))]: the exponential-decay term has base
    [2 * replicas]. *)
Theorem rnmtplus_decay_value (scale n p s e : R) (t : Z) :
  rate (RNMTPlusDecay_init scale n p s e) t
  = rnmtplus_formula (2 * n) scale n p s e (IZR t).
Proof.
  rewrite rate_RNMTPlus. unfold rnmtplus_formula.
  now rewrite Rmin_assoc.
Qed.

(** C3 fails as stated: with [scale = 1], two replicas, [warmup = 1],
    [start = 0], [end = 1] and step 1, the schedule yields [1/8], where the
    formula with base 2 gives [1/2]. *)
Lemma rnmtplus_base_two_counterexample :
  rate (RNMTPlusDecay_init 1 2 1 0 1) 1 = 1 / 8
  /\ rnmtplus_formula 2 1 2 1 0 1 1 = 1 / 2
  /\ rate (RNMTPlusDecay_init 1 2 1 0 1) 1
     <> rnmtplus_formula 2 1 2 1 0 1 1.
Proof.
  assert (Hexp : (0 - 2 * 1) / (1 - 0) = - INR 2) by (simpl; lra).
  assert (Hcode : rate (RNMTPlusDecay_init 1 2 1 0 1) 1 = 1 / 8).
  { rewrite rate_RNMTPlus, Hexp, Rpower_neg_nat by lra.
    unfold Rmin. repeat destruct (Rle_dec _ _); simpl in *; lra. }
  assert (Hspec : rnmtplus_formula 2 1 2 1 0 1 1 = 1 / 2).
  { unfold rnmtplus_formula. rewrite Hexp, Rpower_neg_nat by lra.
    unfold Rmin. repeat destruct (Rle_dec _ _); simpl in *; lra. }
  repeat split; [exact Hcode | exact Hspec |].
  rewrite Hcode, Hspec. lra.
Qed.

(** *** Purity *)

Lemma schedule_call_receiver (step : Z) (self : schedule) :
  snd (schedule_call step self) = self.
Proof. now destruct self as [[] | [] | [? ? ? []] | []]. Qed.

(** C10.  For each of the four schedules, evaluation leaves the schedule
    object as it was, and the value at a step is the same whatever
    evaluations came before: two evaluations at the same step yield the
    same value. *)
Theorem schedules_are_pure (self : schedule) (step : Z) :
  snd (schedule_call step self) = self
  /\ fst (schedule_call step (snd (schedule_call step self)))
     = fst (schedule_call step self)
  /\ forall steps : list Z,
       after_calls steps self = self
       /\ fst (schedule_call step (after_calls steps self))
          = fst (schedule_call step self).
Proof.
  assert (Hafter : forall steps, after_calls steps self = self).
  { intros steps. unfold after_calls. induction steps as [| t steps IH].
    - reflexivity.
    - simpl. now rewrite schedule_call_receiver. }
  split; [apply schedule_call_receiver |].
  split; [now rewrite schedule_call_receiver |].
  intros steps. now rewrite Hafter.
Qed.

End DecayProperties.

(* ===================================================================== *)
(** ** Shape and bounds of the decay schedules                           *)
(* ===================================================================== *)

Module DecayBehaviour.

Import Decay DecayProperties.
Local Open Scope R_scope.

Lemma Rpower_neg_three_halves (x : R) :
  0 < x -> Rpower x (-1.5) = / (x * sqrt x).
Proof.
  intros Hx. replace (-1.5) with (- (1 + / 2)) by lra.
  now rewrite Rpower_Ropp, Rpower_plus, Rpower_1, Rpower_sqrt.
Qed.

(** *** Noam: linear warmup, inverse square root decay, and the peak *)

(** With positive [dim] and [warmup] and a step [s >= 0]: while
    [s + 1 <= warmup] the Noam schedule is on its linear branch,
    [scale * (s+1) / (sqrt dim * warmup * sqrt warmup)]; once
    [warmup <= s + 1] it is [scale / (sqrt dim * sqrt (s+1))]; and for a
    non-negative scale it never exceeds the value
    [scale / (sqrt dim * sqrt warmup)] the two branches share at
    [s + 1 = warmup]. *)
Theorem noam_warmup_then_decay (scale dim warmup : R) (s : Z)
    (Hdim : 0 < dim) (Hwarmup : 0 < warmup) (Hs : (0 <= s)%Z) :
  (IZR (s + 1) <= warmup ->
   rate (NoamDecay_init scale dim warmup) s
   = scale * / sqrt dim * (IZR (s + 1) / (warmup * sqrt warmup)))
  /\ (warmup <= IZR (s + 1) ->
      rate (NoamDecay_init scale dim warmup) s
      = scale * / sqrt dim * / sqrt (IZR (s + 1)))
  /\ (0 <= scale ->
      rate (NoamDecay_init scale dim warmup) s
      <= scale * / sqrt dim * / sqrt warmup).
Proof.
  assert (Hx : 1 <= IZR (s + 1)) by (apply IZR_le; lia).
  set (x := IZR (s + 1)) in *.
  assert (Hsx : 0 < sqrt x) by (apply sqrt_lt_R0; lra).
  assert (Hsw : 0 < sqrt warmup) by now apply sqrt_lt_R0.
  assert (Hsd : 0 < / sqrt dim)
    by (apply Rinv_0_lt_compat; now apply sqrt_lt_R0).
  assert (Hxx : sqrt x * sqrt x = x) by (apply sqrt_sqrt; lra).
  assert (Hww : sqrt warmup * sqrt warmup = warmup)
    by (apply sqrt_sqrt; lra).
  rewrite rate_Noam. fold x.
  rewrite (Rpower_neg_half dim), (Rpower_neg_half x),
    (Rpower_neg_three_halves warmup) by lra.
  (* the two branches compared *)
  assert (Hlin : x <= warmup -> x * / (warmup * sqrt warmup) <= / sqrt x).
  { intros Hle.
    assert (Hs' : sqrt x <= sqrt warmup) by now apply sqrt_le_1_alt.
    apply (Rmult_le_reg_r (sqrt x * (warmup * sqrt warmup)));
      [apply Rmult_lt_0_compat; [| apply Rmult_lt_0_compat]; lra |].
    field_simplify; [| lra | lra]. nra. }
  assert (Hdec : warmup <= x -> / sqrt x <= x * / (warmup * sqrt warmup)).
  { intros Hle.
    assert (Hs' : sqrt warmup <= sqrt x) by now apply sqrt_le_1_alt.
    apply (Rmult_le_reg_r (sqrt x * (warmup * sqrt warmup)));
      [apply Rmult_lt_0_compat; [| apply Rmult_lt_0_compat]; lra |].
    field_simplify; [| lra | lra]. nra. }
  split; [| split].
  - intros Hle. rewrite Rmin_right by now apply Hlin. reflexivity.
  - intros Hle. rewrite Rmin_left by now apply Hdec. reflexivity.
  - intros Hscale.
    apply Rmult_le_compat_l; [apply Rmult_le_pos; lra |].
    destruct (Rle_dec x warmup) as [Hle | Hgt].
    + eapply Rle_trans; [apply Rmin_r |].
      apply (Rmult_le_reg_r (warmup * sqrt warmup));
        [apply Rmult_lt_0_compat; lra |].
      field_simplify; [| lra | lra]. lra.
    + eapply Rle_trans; [apply Rmin_l |].
      apply Rinv_le_contravar; [exact Hsw |].
      apply sqrt_le_1_alt. lra.
Qed.

(** The default Transformer setting at its peak, step 3999. *)
Lemma noam_warmup_then_decay_witness :
  rate (NoamDecay_init 2 512 4000) 3999
  = 2 * / sqrt 512 * / sqrt 4000
  /\ rate (NoamDecay_init 2 512 4000) 100000
     <= 2 * / sqrt 512 * / sqrt 4000.
Proof.
  pose proof (noam_warmup_then_decay 2 512 4000 3999
                ltac:(lra) ltac:(lra) ltac:(lia)) as (_ & Hpeak & _).
  pose proof (noam_warmup_then_decay 2 512 4000 100000
                ltac:(lra) ltac:(lra) ltac:(lia)) as (_ & _ & Hbound).
  split.
  - rewrite Hpeak by (change (3999 + 1)%Z with 4000%Z; lra).
    reflexivity.
  - apply Hbound. lra.
Defined.

(** *** Rsqrt: the plateau is the maximum *)



(** *** CosineAnnealing: range and period *)



(** The annealing is a cosine wave, not clamped after [max_step]: two
    steps on the annealing branch that are [2 * max_step] apart get the
    same rate, so the rate climbs back to [eta_max] at [2 * max_step]. *)
Theorem cosine_annealing_period (eta_max eta_min max_step : R)
    (warmup : option R) (step step' : Z)
    (Hmax : max_step <> 0)
    (Hperiod : IZR step' = IZR step + 2 * max_step)
    (Hbranch : match warmup with
               | Some w => w <= IZR step /\ w <= IZR step'
               | None => True
               end) :
  rate (CosineAnnealing_init eta_max eta_min max_step warmup) step'
  = rate (CosineAnnealing_init eta_max eta_min max_step warmup) step
  /\ (step = 0%Z ->
      rate (CosineAnnealing_init eta_max eta_min max_step warmup) step'
      = eta_max).
Proof.
  assert (Hcos : cos (PI * IZR step' / max_step)
                 = cos (PI * IZR step / max_step)).
  { rewrite Hperiod.
    replace (PI * (IZR step + 2 * max_step) / max_step)
      with (PI * IZR step / max_step + 2 * INR 1 * PI)
      by (simpl; field; exact Hmax).
    apply cos_period. }
  assert (Hrate :
    rate (CosineAnnealing_init eta_max eta_min max_step warmup) step'
    = rate (CosineAnnealing_init eta_max eta_min max_step warmup) step).
  { destruct warmup as [w |].
    - destruct Hbranch as [Hw Hw']. rewrite !rate_Cosine_warmup.
      destruct (Rlt_dec (IZR step) w); [lra |].
      destruct (Rlt_dec (IZR step') w); [lra |].
      now rewrite Hcos.
    - rewrite !rate_Cosine_no_warmup. now rewrite Hcos. }
  split; [exact Hrate |].
  intros ->. rewrite Hrate.
  destruct warmup as [w |].
  - destruct Hbranch as [Hw _]. rewrite rate_Cosine_warmup.
    destruct (Rlt_dec 0 w); [lra |].
    replace (PI * 0 / max_step) with 0 by (unfold Rdiv; ring).
    rewrite cos_0. lra.
  - rewrite rate_Cosine_no_warmup.
    replace (PI * 0 / max_step) with 0 by (unfold Rdiv; ring).
    rewrite cos_0. lra.
Qed.

Lemma cosine_annealing_period_witness :
  rate (CosineAnnealing_init 1 0 1000 None) 2000 = 1.
Proof.
  apply (cosine_annealing_period 1 0 1000 None 0 2000);
    (lra || exact I || reflexivity).
Defined.

(** *** RNMTPlus: start value, ceiling, and decay after the warmup *)

(** With a non-negative scale, at least one replica, a positive warmup and
    [0 <= start < end]: the schedule starts at [scale] (step 0), stays
    within [0, scale * replicas] at every step [>= 0], and is
    non-increasing in the step once [replicas * warmup] steps are done
    (from there on it is the replica ceiling capped by the exponential
    decay). *)
Theorem rnmtplus_start_ceiling_decay (scale n p s e : R)
    (Hscale : 0 <= scale) (Hn : 1 <= n) (Hp : 0 < p)
    (Hs : 0 <= s) (He : s < e) :
  rate (RNMTPlusDecay_init scale n p s e) 0 = scale
  /\ (forall t : Z,
        (0 <= t)%Z ->
        0 <= rate (RNMTPlusDecay_init scale n p s e) t <= scale * n)
  /\ (forall t t' : Z,
        n * p <= IZR t -> (t <= t')%Z ->
        rate (RNMTPlusDecay_init scale n p s e) t'
        <= rate (RNMTPlusDecay_init scale n p s e) t).
Proof.
  assert (Hnp : 0 < n * p) by (apply Rmult_lt_0_compat; lra).
  assert (Hinv : 0 < / (n * p)) by now apply Rinv_0_lt_compat.
  assert (Hes : 0 < / (e - s)) by (apply Rinv_0_lt_compat; lra).
  assert (Hpow : forall x : R, 0 < n * Rpower (2 * n) x).
  { intros x. apply Rmult_lt_0_compat; [lra | apply Rpower_pos]. }
  assert (Hwarm : forall t : R,
             0 <= t -> 1 <= 1 + t * (n - 1) / (n * p)).
  { intros t Ht.
    assert (0 <= t * (n - 1) * / (n * p)).
    { apply Rmult_le_pos; [apply Rmult_le_pos; lra | lra]. }
    unfold Rdiv. lra. }
  split; [| split].
  - rewrite rate_RNMTPlus.
    replace (1 + 0 * (n - 1) / (n * p)) with 1 by (unfold Rdiv; ring).
    rewrite (Rmin_left 1 n) by exact Hn.
    rewrite Rmin_left; [ring |].
    assert (Hexp : 0 <= (s - n * 0) / (e - s)).
    { unfold Rdiv. apply Rmult_le_pos; lra. }
    pose proof (Rle_Rpower (2 * n) 0 _ ltac:(lra) Hexp) as Hge.
    rewrite Rpower_O in Hge by lra. nra.
  - intros t Ht. rewrite rate_RNMTPlus.
    assert (Ht' : 0 <= IZR t) by now apply IZR_le.
    split.
    + apply Rmult_le_pos; [exact Hscale |].
      apply Rmin_glb; [apply Rmin_glb |].
      * specialize (Hwarm _ Ht'). lra.
      * lra.
      * left. apply Hpow.
    + apply Rmult_le_compat_l; [exact Hscale |].
      eapply Rle_trans; [apply Rmin_l | apply Rmin_r].
  - intros t t' Hdone Hle. rewrite !rate_RNMTPlus.
    assert (Htt : IZR t <= IZR t') by now apply IZR_le.
    assert (Hceil : forall x : R,
               n * p <= x -> Rmin (1 + x * (n - 1) / (n * p)) n = n).
    { intros x Hx. apply Rmin_right.
      assert (Hq : 1 <= x * / (n * p)).
      { apply (Rmult_le_reg_r (n * p)); [exact Hnp |].
        rewrite Rmult_assoc, Rinv_l by lra. lra. }
      unfold Rdiv.
      replace (x * (n - 1) * / (n * p)) with ((n - 1) * (x * / (n * p)))
        by ring.
      nra. }
    rewrite (Hceil (IZR t)), (Hceil (IZR t')) by lra.
    apply Rmult_le_compat_l; [exact Hscale |].
    apply Rle_min_compat_l.
    apply Rmult_le_compat_l; [lra |].
    apply Rle_Rpower; [lra |].
    unfold Rdiv. apply Rmult_le_compat_r; [lra | nra].
Qed.

(** The defaults of the class on four replicas. *)
Lemma rnmtplus_start_ceiling_decay_witness :
  rate (RNMTPlusDecay_init 1 4 500 600000 1200000) 0 = 1
  /\ rate (RNMTPlusDecay_init 1 4 500 600000 1200000) 700000
     <= rate (RNMTPlusDecay_init 1 4 500 600000 1200000) 2000.
Proof.
  pose proof (rnmtplus_start_ceiling_decay 1 4 500 600000 1200000
                ltac:(lra) ltac:(lra) ltac:(lra) ltac:(lra) ltac:(lra))
    as (Hstart & _ & Hdecay).
  split; [exact Hstart |].
  apply Hdecay; [lra | lia].
Defined.

End DecayBehaviour.


(* ===================================================================== *)
(** ** Properties of the training loop                                   *)
(* ===================================================================== *)

Module TrainingProperties.

Import Training.
Local Open Scope Z_scope.

Section Effects.

Context `{Collaborators}.
Variable a : args.

(** *** What each function leaves untouched *)

(** The generator accumulates gradients and touches nothing else. *)
Lemma run_replicas_frame (element : list batch) (fr : frame) :
  let fr' := snd (run_replicas element fr) in
  self fr' = self fr
  /\ accum_num_words fr' = accum_num_words fr
  /\ last_report_time fr' = last_report_time fr
  /\ last_step fr' = last_step fr
  /\ step fr' = step fr.
Proof.
  revert fr. induction element as [| b element IH]; intros fr; simpl.
  - repeat split.
  - specialize (IH (snd (_accumulate_gradients b fr))).
    unfold _accumulate_gradients in *. simpl in *.
    destruct (run_replicas element _) as [outs fr'']. simpl in *. exact IH.
Qed.

Lemma _forward_frame (element : list batch) (fr : frame) :
  let fr' := snd (_forward element fr) in
  self fr' = self fr
  /\ accum_num_words fr' = accum_num_words fr
  /\ last_report_time fr' = last_report_time fr
  /\ last_step fr' = last_step fr
  /\ step fr' = step fr.
Proof.
  pose proof (run_replicas_frame element fr) as Hrun.
  unfold _forward. destruct (run_replicas element fr) as [outs fr'].
  exact Hrun.
Qed.

(** Applying the gradients advances the counter by one, resets every
    accumulator and emits nothing. *)
Lemma _step_effect (fr : frame) :
  let fr' := _step fr in
  iterations (self fr') = iterations (self fr) + 1
  /\ variables (self fr')
     = snd (update (opt_slots (self fr)) (iterations (self fr))
              (combine (gradients fr) (variables (self fr))))
  /\ gradients fr' = map zeros_like (gradients fr)
  /\ trace (self fr') = trace (self fr)
  /\ clock (self fr') = clock (self fr)
  /\ accum_num_words fr' = accum_num_words fr
  /\ last_report_time fr' = last_report_time fr
  /\ last_step fr' = last_step fr
  /\ step fr' = step fr.
Proof.
  unfold _step, _apply_gradients.
  destruct (update _ _ _) as [slots' variables']. simpl. repeat split.
Qed.

(** The cadence actions never touch the counter, the variables or the
    accumulators. *)
Lemma report_if_due_model (s : Z) (loss : scalar) (fr : frame) :
  let fr' := report_if_due a s loss fr in
  iterations (self fr') = iterations (self fr)
  /\ variables (self fr') = variables (self fr)
  /\ gradients fr' = gradients fr
  /\ saved_steps (trace (self fr')) = saved_steps (trace (self fr))
  /\ last_step fr' = last_step fr
  /\ step fr' = step fr.
Proof.
  unfold report_if_due. destruct (np_mod s (report_steps a) =? 0).
  - simpl. unfold saved_steps. rewrite flat_map_app. simpl.
    rewrite app_nil_r. repeat split.
  - repeat split.
Qed.

Lemma save_if_due_model (s : Z) (fr : frame) :
  let fr' := save_if_due a s fr in
  iterations (self fr') = iterations (self fr)
  /\ variables (self fr') = variables (self fr)
  /\ gradients fr' = gradients fr
  /\ last_step fr' = last_step fr
  /\ step fr' = step fr.
Proof.
  unfold save_if_due. destruct (save_steps a) as [n |]; [| repeat split].
  destruct (np_mod s n =? 0); repeat split.
Qed.

Lemma evaluate_if_due_model (s : Z) (fr : frame) :
  let fr' := evaluate_if_due a s fr in
  iterations (self fr') = iterations (self fr)
  /\ variables (self fr') = variables (self fr)
  /\ gradients fr' = gradients fr
  /\ saved_steps (trace (self fr')) = saved_steps (trace (self fr))
  /\ last_step fr' = last_step fr
  /\ step fr' = step fr.
Proof.
  unfold evaluate_if_due.
  destruct (evaluator a); [| repeat split].
  destruct (eval_steps a) as [n |]; [| repeat split].
  destruct (np_mod s n =? 0); [| repeat split].
  simpl. unfold saved_steps. rewrite flat_map_app. simpl.
  rewrite app_nil_r. repeat split.
Qed.

End Effects.

Section Loop.

Context `{Collaborators}.
Variable a : args.

(** *** The loop body, case by case *)

Lemma loop_body_unfold (i : nat) (loss : scalar) (num_words : gmap string Z)
    (fr : frame) (apply : bool) :
  is_apply_step a i = Some apply ->
  loop_body a i loss num_words fr
  = let fr1 := if apply then _step fr else fr in
    let s := iterations (self fr1) in
    let fr2 :=
      with_step s
        (with_accum_num_words
           (add_num_words num_words (accum_num_words fr1)) fr1) in
    if s =? last_step fr1 then Continue fr2
    else
      let fr3 := post_processing a s loss (with_last_step s fr2) in
      match max_step a with
      | Some m => if s =? m then Break fr3 else Continue fr3
      | None => Continue fr3
      end.
Proof. intros Happly. unfold loop_body. now rewrite Happly. Qed.

Lemma post_processing_model (s : Z) (loss : scalar) (fr : frame) :
  let fr' := post_processing a s loss fr in
  iterations (self fr') = iterations (self fr)
  /\ variables (self fr') = variables (self fr)
  /\ gradients fr' = gradients fr
  /\ last_step fr' = last_step fr
  /\ step fr' = step fr.
Proof.
  unfold post_processing.
  pose proof (report_if_due_model a s loss fr) as (R1 & R2 & R3 & _ & R4 & R5).
  pose proof (save_if_due_model a s (report_if_due a s loss fr))
    as (S1 & S2 & S3 & S4 & S5).
  pose proof (evaluate_if_due_model a s
                (save_if_due a s (report_if_due a s loss fr)))
    as (E1 & E2 & E3 & _ & E4 & E5).
  simpl in *. repeat split; congruence.
Qed.

(** With a non-zero accumulation factor the test of the loop body never
    raises, and holds exactly at the application points. *)
Lemma is_apply_step_spec (i : nat) :
  accum_steps a <> 0 ->
  exists apply : bool,
    is_apply_step a i = Some apply
    /\ (apply = true <-> application_point (accum_steps a) i).
Proof.
  intros Hacc. unfold is_apply_step, application_point, py_mod.
  destruct (Nat.eqb_spec i 0) as [-> | Hi].
  - exists true. split; [reflexivity |]. split; auto.
  - destruct (Z.eqb_spec (accum_steps a) 0) as [| _]; [contradiction |].
    eexists. split; [reflexivity |].
    rewrite Z.eqb_eq, Z.mod_divide by exact Hacc.
    split; [auto | intros [-> | Hd]; [contradiction | exact Hd]].
Qed.

(** The frame a micro-step leaves, as far as the optimizer and the
    accumulators go. *)
Lemma micro_step_model (i : nat) (element : list batch) (fr : frame)
    (apply : bool) :
  is_apply_step a i = Some apply ->
  let acc := snd (_forward element fr) in
  let fr1 := if apply then _step acc else acc in
  let fr' := frame_of (micro_step a i element fr) in
  iterations (self fr') = iterations (self fr1)
  /\ variables (self fr') = variables (self fr1)
  /\ gradients fr' = gradients fr1
  /\ step fr' = Some (iterations (self fr1))
  /\ match micro_step a i element fr with
     | Raise _ _ => False
     | Break _ => max_step a = Some (iterations (self fr1))
     | Continue _ => True
     end.
Proof.
  intros Happly. unfold micro_step.
  destruct (_forward element fr) as [[loss num_words] acc]. simpl.
  rewrite (loop_body_unfold _ _ _ _ _ Happly). cbv zeta.
  set (fr1 := if apply then _step acc else acc).
  set (s := iterations (self fr1)).
  set (fr2 := with_step s _).
  destruct (s =? last_step fr1).
  - simpl. repeat split.
  - pose proof (post_processing_model s loss (with_last_step s fr2))
      as (P1 & P2 & P3 & P4 & P5). simpl in P1, P2, P3, P4, P5.
    destruct (max_step a) as [m |].
    + destruct (Z.eqb_spec s m) as [Heq | Hne]; simpl; repeat split; auto.
      now rewrite <- Heq.
    + simpl. repeat split; auto.
Qed.

End Loop.

Section Accumulation.

Context `{Collaborators}.

Lemma is_apply_step_nonzero (a : args) (i : nat) :
  accum_steps a <> 0 ->
  is_apply_step a i
  = Some ((i =? 0)%nat || ((Z.of_nat i + 1) mod accum_steps a =? 0)).
Proof.
  intros Hacc. unfold is_apply_step, py_mod.
  destruct (i =? 0)%nat; [reflexivity |].
  now destruct (Z.eqb_spec (accum_steps a) 0).
Qed.

(** Without a [max_step] and with a non-zero accumulation factor, the loop
    runs to the end of the dataset, and the counter advances once per
    application point. *)
Lemma train_loop_counter (a : args) :
  accum_steps a <> 0 -> max_step a = None ->
  forall (dataset : list (list batch)) (i : nat) (fr : frame),
  exists fr' : frame,
    train_loop a i dataset fr = (fr', Exhausted)
    /\ iterations (self fr')
       = iterations (self fr)
         + applications (accum_steps a) i (length dataset).
Proof.
  intros Hacc Hmax dataset.
  induction dataset as [| element dataset IH]; intros i fr.
  - exists fr. split; [reflexivity | simpl; lia].
  - pose proof (micro_step_model a i element fr _
                  (is_apply_step_nonzero a i Hacc))
      as (Hit & _ & _ & _ & Hctl).
    pose proof (_forward_frame element fr) as (Hself & _).
    cbv zeta in Hit, Hself. simpl train_loop.
    destruct (micro_step a i element fr) as [fr1 | fr1 | e fr1];
      [| congruence | contradiction].
    destruct (IH (S i) fr1) as (fr' & Hloop & Hcount).
    exists fr'. split; [exact Hloop |].
    rewrite Hcount. simpl frame_of in Hit. rewrite Hit.
    simpl applications.
    destruct ((i =? 0)%nat || ((Z.of_nat i + 1) mod accum_steps a =? 0)).
    + destruct (_step_effect (snd (_forward element fr))) as (Hs & _).
      cbv zeta in Hs. rewrite Hs, Hself. lia.
    + rewrite Hself. lia.
Qed.

(** Whatever ends the loop, it ran some number [k] of micro-steps (all of
    them when the dataset was exhausted, at least one when [max_step]
    stopped it), it did not raise, and the counter advanced once per
    application point among those [k] micro-steps. *)
Lemma train_loop_applications (a : args) :
  accum_steps a <> 0 ->
  forall (dataset : list (list batch)) (i : nat) (fr fr' : frame)
         (ex : loop_exit),
  train_loop a i dataset fr = (fr', ex) ->
  exists k : nat,
    (k <= length dataset)%nat
    /\ (ex = Exhausted -> k = length dataset)
    /\ (ex = Broke -> (1 <= k)%nat)
    /\ (forall e, ex <> Failed e)
    /\ iterations (self fr')
       = iterations (self fr) + applications (accum_steps a) i k.
Proof.
  intros Hacc dataset.
  induction dataset as [| element dataset IH]; intros i fr fr' ex Hloop;
    simpl in Hloop.
  - injection Hloop as <- <-. exists 0%nat. simpl.
    split; [lia |]. split; [reflexivity |].
    split; [discriminate |]. split; [discriminate | lia].
  - pose proof (micro_step_model a i element fr _
                  (is_apply_step_nonzero a i Hacc))
      as (Hit & _ & _ & _ & Hctl).
    pose proof (_forward_frame element fr) as (Hself & _).
    pose proof (_step_effect (snd (_forward element fr))) as (Hs & _).
    cbv zeta in Hit, Hself, Hs.
    assert (Hone : forall fr1,
               frame_of (micro_step a i element fr) = fr1 ->
               iterations (self fr1)
               = iterations (self fr) + applications (accum_steps a) i 1).
    { intros fr1 <-. rewrite Hit. simpl applications.
      destruct ((i =? 0)%nat || ((Z.of_nat i + 1) mod accum_steps a =? 0));
        rewrite ?Hs, Hself; lia. }
    destruct (micro_step a i element fr) as [fr1 | fr1 | e fr1];
      [| | contradiction].
    + destruct (IH _ _ _ _ Hloop) as (k & Hk & Hex & Hbr & Hok & Hcount).
      exists (S k). simpl length.
      split; [lia |]. split; [intros ->; now rewrite Hex |].
      split; [lia |]. split; [exact Hok |].
      rewrite Hcount, (Hone fr1 eq_refl). simpl applications. lia.
    + injection Hloop as <- <-. exists 1%nat. simpl length.
      split; [lia |]. split; [discriminate |].
      split; [lia |]. split; [discriminate |].
      exact (Hone fr1 eq_refl).
Qed.

(** The application points among the micro-steps after the first, for an
    accumulation factor of 3: the multiples of 3 among the 1-based
    indices. *)
Lemma applications_3 (n i : nat) :
  (1 <= i)%nat ->
  applications 3 i n
  = (Z.of_nat i + Z.of_nat n) / 3 - Z.of_nat i / 3.
Proof.
  revert i. induction n as [| n IH]; intros i Hi.
  - simpl. rewrite Z.add_0_r. lia.
  - simpl applications. rewrite IH by lia.
    destruct (Nat.eqb_spec i 0) as [-> | _]; [lia |]. simpl orb.
    rewrite !Nat2Z.inj_succ.
    unfold Z.succ.
    destruct (Z.eqb_spec ((Z.of_nat i + 1) mod 3) 0) as [Hm | Hm];
      Z.div_mod_to_equations; lia.
Qed.

Lemma applications_3_from_start (n : nat) :
  applications 3 0 (S n) = 1 + Z.of_nat (S n) / 3.
Proof.
  simpl applications. rewrite applications_3 by lia.
  rewrite Nat2Z.inj_succ. simpl orb. change (Z.of_nat 1) with 1.
  unfold Z.succ. Z.div_mod_to_equations. lia.
Qed.


End Accumulation.

Section WordCounts.

Context `{Collaborators}.

(** The running totals after [accum_num_words[key] += value] for every
    key of the micro-step's counts: a counted key grows by its count (from
    0 when it is new), every other key keeps its total. *)
Lemma add_num_words_lookup (num_words accum : gmap string Z) (key : string) :
  add_num_words num_words accum !! key
  = match num_words !! key with
    | Some value => Some (default 0 (accum !! key) + value)
    | None => accum !! key
    end.
Proof.
  unfold add_num_words.
  apply (map_fold_weak_ind
           (fun (r : gmap string Z) (m : gmap string Z) =>
              r !! key = match m !! key with
                         | Some value => Some (default 0 (accum !! key) + value)
                         | None => accum !! key
                         end)).
  - now rewrite lookup_empty.
  - intros i x m r Hfresh IH.
    destruct (decide (i = key)) as [-> | Hne].
    + rewrite !lookup_insert_eq. rewrite Hfresh in IH. now rewrite IH.
    + now rewrite !lookup_insert_ne.
Qed.

(** C2 (as amended).  On a micro-step after which the global step counter
    equals the previously observed step, the loop body has added the
    returned word counts to the running totals and then skips the rest of
    the post-processing: the loop continues, and the last observed step,
    the last report time, the clock and the emitted events (reports,
    checkpoints, evaluations) are unchanged. *)
Theorem mid_accumulation_step_only_counts_words (a : args) (i : nat)
    (element : list batch) (fr : frame) (apply : bool)
    (Happly : is_apply_step a i = Some apply)
    (Hsame : iterations (self (frame_of (micro_step a i element fr)))
             = last_step fr) :
  let num_words := snd (fst (_forward element fr)) in
  let fr' := frame_of (micro_step a i element fr) in
  micro_step a i element fr = Continue fr'
  /\ (forall key : string,
        accum_num_words fr' !! key
        = match num_words !! key with
          | Some value =>
              Some (default 0 (accum_num_words fr !! key) + value)
          | None => accum_num_words fr !! key
          end)
  /\ last_step fr' = last_step fr
  /\ last_report_time fr' = last_report_time fr
  /\ clock (self fr') = clock (self fr)
  /\ trace (self fr') = trace (self fr).
Proof.
  pose proof (micro_step_model a i element fr apply Happly) as (Hit & _).
  pose proof (_forward_frame element fr)
    as (Hself & Hwords & Htime & Hlast & _).
  cbv zeta in *. rewrite Hit in Hsame. clear Hit. revert Hsame.
  unfold micro_step.
  destruct (_forward element fr) as [[loss num_words] acc].
  simpl fst in *. simpl snd in *.
  rewrite (loop_body_unfold _ _ _ _ _ _ Happly). cbv zeta.
  pose proof (_step_effect acc) as (_ & _ & _ & St & Sc & Sw & Srt & Sl & _).
  cbv zeta in *.
  set (fr1 := if apply then _step acc else acc).
  assert (Hfr1 : last_step fr1 = last_step fr
                 /\ accum_num_words fr1 = accum_num_words fr
                 /\ last_report_time fr1 = last_report_time fr
                 /\ clock (self fr1) = clock (self fr)
                 /\ trace (self fr1) = trace (self fr)).
  { subst fr1. destruct apply; rewrite <- ?Hself; repeat split; congruence. }
  destruct Hfr1 as (F1 & F2 & F3 & F4 & F5).
  intros Hsame. rewrite F1, Hsame, Z.eqb_refl. simpl.
  repeat split; auto.
  intros key. now rewrite add_num_words_lookup, F2.
Qed.

End WordCounts.

Section Stopping.

Context `{Collaborators}.
Variable a : args.

(** *** Checkpoints along the loop *)

Lemma saves_at_emit (s : Z) (e : event) (t : list event) :
  saves_at s (t ++ [e])
  = (saves_at s t
     + match e with
       | CheckpointSave s' => if Z.eq_dec s' s then 1 else 0
       | _ => 0
       end)%nat.
Proof.
  unfold saves_at, saved_steps. rewrite flat_map_app, count_occ_app.
  now destruct e.
Qed.

Lemma save_if_due_saves (m s : Z) (fr : frame) :
  saves_at m (trace (self (save_if_due a s fr)))
  = (saves_at m (trace (self fr))
     + cadence_saves a m s)%nat.
Proof.
  unfold save_if_due, cadence_saves.
  destruct (save_steps a) as [n |]; [| lia].
  destruct (np_mod s n =? 0); [| simpl; lia].
  simpl. rewrite saves_at_emit.
  destruct (Z.eq_dec s m) as [-> | Hne].
  - now rewrite Z.eqb_refl.
  - now destruct (Z.eqb_spec s m).
Qed.

Lemma post_processing_saves (m s : Z) (loss : scalar) (fr : frame) :
  saves_at m (trace (self (post_processing a s loss fr)))
  = (saves_at m (trace (self fr))
     + cadence_saves a m s)%nat.
Proof.
  unfold post_processing, saves_at.
  destruct (evaluate_if_due_model a s
              (save_if_due a s (report_if_due a s loss fr)))
    as (_ & _ & _ & -> & _).
  fold (saves_at m (trace (self (save_if_due a s
                                   (report_if_due a s loss fr))))).
  rewrite save_if_due_saves. unfold saves_at.
  now destruct (report_if_due_model a s loss fr) as (_ & _ & _ & -> & _).
Qed.

(** A micro-step that lets the loop continue saves no checkpoint tagged
    [max_step]; the one that breaks the loop has observed [max_step], and
    saves one when the [save_steps] cadence is due there. *)
Lemma micro_step_saves (m : Z) (i : nat) (element : list batch)
    (fr : frame) :
  max_step a = Some m ->
  match micro_step a i element fr with
  | Continue fr' =>
      saves_at m (trace (self fr')) = saves_at m (trace (self fr))
  | Break fr' =>
      step fr' = Some m
      /\ saves_at m (trace (self fr'))
         = (saves_at m (trace (self fr))
            + cadence_saves a m m)%nat
  | Raise _ _ => True
  end.
Proof.
  intros Hmax.
  pose proof (_forward_frame element fr) as (Hself & _).
  unfold micro_step.
  destruct (_forward element fr) as [[loss num_words] acc]. simpl in Hself.
  destruct (is_apply_step a i) as [apply |] eqn:Happly;
    [| unfold loop_body; now rewrite Happly].
  rewrite (loop_body_unfold _ _ _ _ _ _ Happly). cbv zeta.
  pose proof (_step_effect acc) as (_ & _ & _ & St & _). cbv zeta in St.
  set (fr1 := if apply then _step acc else acc).
  assert (Htrace : trace (self fr1) = trace (self fr))
    by (subst fr1; destruct apply; congruence).
  set (s := iterations (self fr1)).
  destruct (s =? last_step fr1); [simpl; now rewrite Htrace |].
  set (fr2 := with_last_step s _).
  pose proof (post_processing_saves m s loss fr2) as Hsaves.
  pose proof (post_processing_model a s loss fr2) as (_ & _ & _ & _ & Hstep).
  cbv zeta in Hstep. simpl in Hsaves, Hstep. rewrite Htrace in Hsaves.
  rewrite Hmax. destruct (Z.eqb_spec s m) as [Heq | Hne].
  - rewrite Hstep, Hsaves, Heq. now split.
  - rewrite Hsaves. unfold cadence_saves.
    destruct (save_steps a) as [n |]; [| lia].
    destruct (Z.eqb_spec s m); [contradiction |].
    rewrite andb_false_r. lia.
Qed.

Lemma train_loop_broke (m : Z) (dataset : list (list batch)) :
  max_step a = Some m ->
  forall (i : nat) (fr fr' : frame),
  train_loop a i dataset fr = (fr', Broke) ->
  step fr' = Some m
  /\ saves_at m (trace (self fr'))
     = (saves_at m (trace (self fr))
        + cadence_saves a m m)%nat.
Proof.
  intros Hmax. induction dataset as [| element dataset IH];
    intros i fr fr' Hloop; simpl in Hloop; [discriminate |].
  pose proof (micro_step_saves m i element fr Hmax) as Hstep.
  destruct (micro_step a i element fr) as [fr1 | fr1 | e fr1].
  - destruct (IH _ _ _ Hloop) as (Hs & Hc). split; [exact Hs |].
    now rewrite Hc, Hstep.
  - injection Hloop as <-. exact Hstep.
  - discriminate.
Qed.

(** After at least one micro-step that did not raise, [step] is bound to
    the optimizer's iteration counter. *)
Lemma train_loop_step (dataset : list (list batch)) :
  forall (i : nat) (fr fr' : frame) (ex : loop_exit),
  train_loop a i dataset fr = (fr', ex) ->
  (forall e, ex <> Failed e) ->
  dataset <> [] \/ step fr = Some (iterations (self fr)) ->
  step fr' = Some (iterations (self fr')).
Proof.
  induction dataset as [| element dataset IH];
    intros i fr fr' ex Hloop Hok Hstart; simpl in Hloop.
  - injection Hloop as <- <-. now destruct Hstart.
  - destruct (is_apply_step a i) as [apply |] eqn:Happly.
    + pose proof (micro_step_model a i element fr apply Happly)
        as (Hit & _ & _ & Hstep & _).
      cbv zeta in Hit, Hstep. rewrite <- Hit in Hstep.
      destruct (micro_step a i element fr) as [fr1 | fr1 | e fr1].
      * eapply IH; eauto.
      * now injection Hloop as <- <-.
      * injection Hloop as <- <-. now destruct (Hok e).
    + unfold micro_step, loop_body in Hloop.
      destruct (_forward element fr) as [[loss num_words] acc].
      rewrite Happly in Hloop. injection Hloop as <- <-.
      now destruct (Hok ZeroDivisionError).
Qed.

End Stopping.

Section Runs.

Context `{Collaborators}.

Lemma already_reached_iff (a : args) (tr : trainer) (m : Z) :
  max_step a = Some m ->
  (already_reached a tr = Some m <-> m <= iterations tr)
  /\ (already_reached a tr = None <-> iterations tr < m).
Proof.
  intros Hmax. unfold already_reached. rewrite Hmax.
  destruct (Z.geb_spec (iterations tr) m); split; split;
    (reflexivity || discriminate || lia).
Qed.

(** C4 (as amended).  When the optimizer's iteration counter already meets
    or exceeds [max_step], the call logs a warning and returns normally at
    once: it processes no batch (the result does not depend on the
    dataset; variables and counter are untouched) and saves no
    checkpoint. *)
Theorem already_reached_only_warns (a : args) (tr : trainer)
    (dataset : list (list batch)) (m : Z)
    (Hmax : max_step a = Some m) (Hreached : m <= iterations tr) :
  Trainer_call a tr dataset = (emit (LogWarning m) tr, Returned)
  /\ trace (fst (Trainer_call a tr dataset)) = trace tr ++ [LogWarning m]
  /\ saved_steps (trace (fst (Trainer_call a tr dataset)))
     = saved_steps (trace tr)
  /\ iterations (fst (Trainer_call a tr dataset)) = iterations tr
  /\ variables (fst (Trainer_call a tr dataset)) = variables tr
  /\ clock (fst (Trainer_call a tr dataset)) = clock tr.
Proof.
  assert (Hcall : Trainer_call a tr dataset
                  = (emit (LogWarning m) tr, Returned)).
  { unfold Trainer_call.
    now rewrite (proj2 (proj1 (already_reached_iff a tr m Hmax)) Hreached). }
  rewrite Hcall. simpl. repeat split.
  unfold saved_steps. rewrite flat_map_app. simpl. now rewrite app_nil_r.
Qed.

(** On an empty dataset the loop body never binds [step], and the final
    [self._checkpoint.save(step)] raises. *)
Lemma Trainer_call_empty_dataset (a : args) (tr : trainer) :
  already_reached a tr = None ->
  Trainer_call a tr [] = (tick tr, Raised UnboundLocalError).
Proof. intros Hnot. unfold Trainer_call. now rewrite Hnot. Qed.

(** A run that exhausts a dataset of at least one element returns
    normally, and its last action is the one final checkpoint, tagged with
    the optimizer's iteration counter as the last micro-step left it. *)
Lemma exhausted_run_saves_last_step (a : args) (tr : trainer)
    (dataset : list (list batch)) (fr : frame) :
  already_reached a tr = None ->
  dataset <> [] ->
  train_loop a 0 dataset (enter tr) = (fr, Exhausted) ->
  Trainer_call a tr dataset
  = (emit (CheckpointSave (iterations (self fr))) (self fr), Returned).
Proof.
  intros Hnot Hne Hloop. unfold Trainer_call. rewrite Hnot, Hloop.
  rewrite (train_loop_step a dataset _ _ _ _ Hloop); [reflexivity | |].
  - intros e. discriminate.
  - now left.
Qed.

(** C9.  When a run stops by reaching [max_step], and [max_step] is a
    positive multiple of [save_steps], the call returns after saving two
    checkpoints tagged [max_step]: one by the [save_steps] cadence and one
    by the final save. *)
Theorem max_step_checkpoint_saved_twice (a : args) (tr : trainer)
    (dataset : list (list batch)) (fr : frame) (m n : Z)
    (Hmax : max_step a = Some m) (Hsave : save_steps a = Some n)
    (Hpos : 0 < m) (Hmult : (n | m))
    (Hnot : iterations tr < m)
    (Hstop : train_loop a 0 dataset (enter tr) = (fr, Broke)) :
  Trainer_call a tr dataset
  = (emit (CheckpointSave m) (self fr), Returned)
  /\ saves_at m (trace (self fr)) = (saves_at m (trace tr) + 1)%nat
  /\ saves_at m (trace (fst (Trainer_call a tr dataset)))
     = (saves_at m (trace tr) + 2)%nat.
Proof.
  destruct (train_loop_broke a m dataset Hmax _ _ _ Hstop) as (Hstep & Hc).
  assert (Hdue : cadence_saves a m m = 1%nat).
  { unfold cadence_saves, np_mod. rewrite Hsave, Z.eqb_refl.
    destruct (Z.eqb_spec n 0) as [-> | Hn].
    - destruct Hmult as [k Hk]. lia.
    - apply Z.mod_divide in Hmult; [| exact Hn]. now rewrite Hmult. }
  rewrite Hdue in Hc. simpl in Hc.
  assert (Hcall : Trainer_call a tr dataset
                  = (emit (CheckpointSave m) (self fr), Returned)).
  { unfold Trainer_call.
    rewrite (proj2 (proj2 (already_reached_iff a tr m Hmax)) Hnot).
    now rewrite Hstop, Hstep. }
  rewrite Hcall. simpl. rewrite saves_at_emit, Hc.
  split; [reflexivity |]. split; [lia |].
  destruct (Z.eq_dec m m); [lia | contradiction].
Qed.

End Runs.

(** *** Concrete runs *)

Section Concrete.

Import Example.



(** The second micro-step of a window of 3: the counter stays at the
    observed step 1, the 7 source words and 11 target words of the batch
    are added to the totals, nothing is emitted. *)
Lemma mid_accumulation_step_only_counts_words_witness :
  micro_step with_accum_3 1 [a_batch] after_first_step
  = Continue (frame_of (micro_step with_accum_3 1 [a_batch] after_first_step))
  /\ accum_num_words
       (frame_of (micro_step with_accum_3 1 [a_batch] after_first_step))
     !! "target"
     = Some (default 0 (accum_num_words after_first_step !! "target") + 11)
  /\ trace (self (frame_of (micro_step with_accum_3 1 [a_batch]
                              after_first_step)))
     = trace (self after_first_step).
Proof.
  pose proof (mid_accumulation_step_only_counts_words (H := collaborators)
                with_accum_3 1 [a_batch] after_first_step false
                ltac:(reflexivity) ltac:(vm_compute; reflexivity))
    as (Hcont & Hwords & _ & _ & _ & Htrace).
  split; [exact Hcont |]. split; [| exact Htrace].
  exact (Hwords "target").
Defined.

(** C2 fails as stated: on that micro-step the post-step counter equals
    the previously observed step, and yet the running word-count totals
    change (the source total goes from 7 to 14). *)
Lemma mid_accumulation_word_counts_counterexample :
  iterations
    (self (frame_of (micro_step with_accum_3 1 [a_batch] after_first_step)))
  = last_step after_first_step
  /\ accum_num_words after_first_step !! "source" = Some 7
  /\ accum_num_words
       (frame_of (micro_step with_accum_3 1 [a_batch] after_first_step))
     !! "source" = Some 14
  /\ accum_num_words
       (frame_of (micro_step with_accum_3 1 [a_batch] after_first_step))
     <> accum_num_words after_first_step.
Proof.
  repeat split; try (vm_compute; reflexivity).
  intros Heq. apply (f_equal (fun m : gmap string Z => m !! "source")) in Heq.
  vm_compute in Heq. discriminate.
Qed.

(** A trainer already at [max_step = 4]. *)
Lemma already_reached_only_warns_witness :
  Trainer_call (with_max_step 4 2) (trainer_at 4) (dataset 10)
  = (emit (LogWarning 4) (trainer_at 4), Returned).
Proof.
  apply (already_reached_only_warns (H := collaborators)
           (with_max_step 4 2) (trainer_at 4) (dataset 10) 4).
  - reflexivity.
  - simpl. lia.
Defined.

(** C4 fails as stated: a trainer already at [max_step = 4] returns with
    the warning as its only event; no checkpoint is saved. *)
Lemma already_reached_final_checkpoint_counterexample :
  trace (fst (Trainer_call (with_max_step 4 2) (trainer_at 4) (dataset 10)))
  = [LogWarning 4]
  /\ ~ (exists s : Z,
          In (CheckpointSave s)
            (trace (fst (Trainer_call (with_max_step 4 2) (trainer_at 4)
                           (dataset 10))))).
Proof.
  split; [vm_compute; reflexivity |].
  intros [s Hin]. vm_compute in Hin. destruct Hin as [Hin | []].
  discriminate.
Qed.

(** C5 on an empty dataset: the dataset is exhausted before any step, the
    call raises [UnboundLocalError] and saves no checkpoint. *)
Theorem empty_dataset_raises_unbound_step :
  Trainer_call default_args (trainer_at 0) []
  = (tick (trainer_at 0), Raised UnboundLocalError)
  /\ saved_steps (trace (fst (Trainer_call default_args (trainer_at 0) [])))
     = [].
Proof.
  rewrite (Trainer_call_empty_dataset (H := collaborators))
    by reflexivity.
  split; reflexivity.
Qed.

(** A run of 10 batches with [max_step = 4] and [save_steps = 2]. *)
Lemma max_step_checkpoint_saved_twice_witness :
  saves_at 4
    (trace (fst (Trainer_call (with_max_step 4 2) (trainer_at 0)
                   (dataset 10))))
  = 2%nat
  /\ saved_steps
       (trace (fst (Trainer_call (with_max_step 4 2) (trainer_at 0)
                      (dataset 10))))
     = [2; 4; 4].
Proof.
  split; [| vm_compute; reflexivity].
  apply (max_step_checkpoint_saved_twice (H := collaborators)
           (with_max_step 4 2) (trainer_at 0) (dataset 10)
           (fst (train_loop (with_max_step 4 2) 0 (dataset 10)
                   (enter (trainer_at 0)))) 4 2).
  - reflexivity.
  - reflexivity.
  - lia.
  - exists 2. reflexivity.
  - simpl. lia.
  - vm_compute. reflexivity.
Defined.

(** Two batches with the default arguments: the dataset is exhausted at
    iteration 2, and the call returns after saving checkpoint 2. *)
Lemma exhausted_run_saves_last_step_witness :
  Trainer_call default_args (trainer_at 0) (dataset 2)
  = (emit (CheckpointSave 2)
       (self (fst (train_loop default_args 0 (dataset 2)
                     (enter (trainer_at 0))))),
     Returned)
  /\ saved_steps
       (trace (fst (Trainer_call default_args (trainer_at 0) (dataset 2))))
     = [2].
Proof.
  split; [| vm_compute; reflexivity].
  apply (exhausted_run_saves_last_step (H := collaborators) default_args
           (trainer_at 0) (dataset 2)
           (fst (train_loop default_args 0 (dataset 2)
                   (enter (trainer_at 0))))).
  - reflexivity.
  - discriminate.
  - vm_compute. reflexivity.
Defined.

End Concrete.

End TrainingProperties.

(* ===================================================================== *)
(** ** Further behaviour of the trainer                                  *)
(* ===================================================================== *)

Module TrainingBehaviour.

Import Training TrainingProperties.
Local Open Scope Z_scope.

(** *** Construction *)

Lemma list_logical_devices_In (host : list LogicalDevice) (type : string)
    (d : LogicalDevice) :
  In d (list_logical_devices host type)
  <-> In d host /\ device_type d = type.
Proof.
  unfold list_logical_devices. rewrite List.filter_In.
  now rewrite String.eqb_eq.
Qed.

(** [Trainer.__init__] raises [ValueError] exactly when the checkpoint has
    no optimizer, whatever the devices.  Otherwise, a non-empty device
    list is used as given; with no device given it picks exactly one
    device of the host, the first GPU, or the first CPU when the host has
    no GPU, and raises [IndexError] when the host has neither. *)
Theorem Trainer_init_picks_devices {M O : Type} (host : list LogicalDevice)
    (checkpoint : Checkpoint M O) (devices : option (list string)) :
  match Trainer_init host checkpoint devices with
  | inl (ValueError message) =>
      optimizer checkpoint = None
      /\ message = "No optimizer is defined"%string
  | inl IndexError =>
      optimizer checkpoint <> None
      /\ falsy devices = true
      /\ (forall d, In d host ->
                    device_type d <> "GPU"%string
                    /\ device_type d <> "CPU"%string)
  | inr t =>
      optimizer checkpoint = Some (_optimizer t)
      /\ _checkpoint t = checkpoint
      /\ _model t = model checkpoint
      /\ _summary_writer t = model_dir checkpoint
      /\ _strategy t <> []
      /\ (falsy devices = false -> devices = Some (_strategy t))
      /\ (falsy devices = true ->
          exists (d : LogicalDevice) (rest : list LogicalDevice),
            _strategy t = [name d]
            /\ In d host
            /\ (list_logical_devices host "GPU" = d :: rest
                \/ (list_logical_devices host "GPU" = []
                    /\ list_logical_devices host "CPU" = d :: rest)))
  end.
Proof.
  unfold Trainer_init.
  destruct (optimizer checkpoint) as [o |]; [| now split].
  destruct devices as [[| d0 devices] |]; simpl falsy; cbv iota.
  2: { simpl. repeat split; try discriminate. }
  all: destruct (list_logical_devices host "GPU") as [| g gpus] eqn:Hgpu.
  all: try destruct (list_logical_devices host "CPU") as [| c cpus] eqn:Hcpu.
  all: simpl.
  all: try (split; [discriminate |]; split; [reflexivity |];
            intros d Hd; split; intros Hty;
            [ assert (Hin : In d (list_logical_devices host "GPU"))
                by (now apply list_logical_devices_In);
              now rewrite Hgpu in Hin
            | assert (Hin : In d (list_logical_devices host "CPU"))
                by (now apply list_logical_devices_In);
              now rewrite Hcpu in Hin ]).
  all: repeat split; try discriminate.
  all: intros _.
  all: try (exists c, cpus; repeat split; auto;
            assert (Hin : In c (list_logical_devices host "CPU"))
              by (rewrite Hcpu; now left);
            now apply list_logical_devices_In in Hin).
  all: exists g, gpus; repeat split; auto;
       assert (Hin : In g (list_logical_devices host "GPU"))
         by (rewrite Hgpu; now left);
       now apply list_logical_devices_In in Hin.
Qed.

(** *** What a micro-step emits *)

Section Events.

Context `{Collaborators}.
Variable a : args.

Lemma np_mod_due (s n : Z) : np_mod s n = 0 <-> due s n.
Proof.
  unfold np_mod, due. destruct (Z.eqb_spec n 0) as [-> | Hn].
  - split; auto.
  - rewrite Z.mod_divide by exact Hn. split; [auto | intros [? | ?]; tauto].
Qed.

Lemma cadence_actions_trace (s : Z) (loss : scalar) (fr : frame) :
  exists new : list event,
    trace (self (post_processing a s loss fr)) = trace (self fr) ++ new
    /\ Forall (on_cadence a) new
    /\ (saved_steps new = [] \/ saved_steps new = [s]).
Proof.
  unfold post_processing.
  (* report *)
  assert (Hr : exists r,
             trace (self (report_if_due a s loss fr)) = trace (self fr) ++ r
             /\ Forall (on_cadence a) r /\ saved_steps r = []).
  { unfold report_if_due.
    destruct (Z.eqb_spec (np_mod s (report_steps a)) 0) as [Hd | _].
    - eexists [_]. simpl. split; [reflexivity |]. split; [| reflexivity].
      constructor; [| constructor]. now apply np_mod_due.
    - exists []. rewrite app_nil_r. repeat split. constructor. }
  destruct Hr as (r & Hr & Hrc & Hrs).
  set (fr1 := report_if_due a s loss fr) in *.
  (* save *)
  assert (Hs : exists c,
             trace (self (save_if_due a s fr1)) = trace (self fr1) ++ c
             /\ Forall (on_cadence a) c
             /\ (saved_steps c = [] \/ saved_steps c = [s])).
  { unfold save_if_due. destruct (save_steps a) as [n |] eqn:Hn.
    - destruct (Z.eqb_spec (np_mod s n) 0) as [Hd | _].
      + exists [CheckpointSave s]. simpl. split; [reflexivity |].
        split; [| now right]. constructor; [| constructor].
        exists n. split; [exact Hn | now apply np_mod_due].
      + exists []. rewrite app_nil_r. repeat split; [constructor | now left].
    - exists []. rewrite app_nil_r. repeat split; [constructor | now left]. }
  destruct Hs as (c & Hs & Hsc & Hss).
  set (fr2 := save_if_due a s fr1) in *.
  (* evaluate *)
  assert (He : exists e,
             trace (self (evaluate_if_due a s fr2)) = trace (self fr2) ++ e
             /\ Forall (on_cadence a) e /\ saved_steps e = []).
  { unfold evaluate_if_due. destruct (evaluator a) eqn:Hev.
    - destruct (eval_steps a) as [n |] eqn:Hn.
      + destruct (Z.eqb_spec (np_mod s n) 0) as [Hd | _].
        * exists [Evaluate s]. simpl. split; [reflexivity |].
          split; [| reflexivity]. constructor; [| constructor].
          split; [exact Hev |]. exists n.
          split; [exact Hn | now apply np_mod_due].
        * exists []. rewrite app_nil_r. repeat split. constructor.
      + exists []. rewrite app_nil_r. repeat split. constructor.
    - exists []. rewrite app_nil_r. repeat split. constructor. }
  destruct He as (e & He & Hec & Hes).
  exists (r ++ c ++ e). split; [| split].
  - rewrite He, Hs, Hr. now rewrite <- !app_assoc.
  - rewrite !Forall_app. auto.
  - unfold saved_steps in *. rewrite !flat_map_app, Hrs, Hes, app_nil_r.
    exact Hss.
Qed.

(** One micro-step, whatever its index and however it ends: the counter
    advances by at most one; the trace grows by events on cadence; either
    the step was not processed ([last_step] and the trace are as before),
    or it was, and then it is a step not observed before, [last_step]
    holds it, and at most one checkpoint, tagged with it, was saved. *)
Lemma micro_step_events (i : nat) (element : list batch) (fr : frame) :
  let c := micro_step a i element fr in
  let fr' := frame_of c in
  let s := iterations (self fr') in
  exists new : list event,
    trace (self fr') = trace (self fr) ++ new
    /\ Forall (on_cadence a) new
    /\ iterations (self fr) <= s <= iterations (self fr) + 1
    /\ length (gradients fr') = length (gradients fr)
    /\ (saved_steps new = []
        \/ (saved_steps new = [s] /\ last_step fr' = s /\ last_step fr <> s))
    /\ match c with
       | Continue _ =>
           step fr' = Some s
           /\ ((s = last_step fr /\ last_step fr' = last_step fr /\ new = [])
               \/ (last_step fr' = s /\ last_step fr <> s
                   /\ max_step a <> Some s))
       | Break _ =>
           step fr' = Some s
           /\ max_step a = Some s /\ last_step fr' = s /\ last_step fr <> s
       | Raise _ _ =>
           step fr' = step fr
           /\ s = iterations (self fr) /\ new = []
           /\ last_step fr' = last_step fr
       end.
Proof.
  cbv zeta.
  pose proof (_forward_frame element fr) as (Hself & _ & _ & Hlast & Hstep).
  assert (Hlen : length (gradients (snd (_forward element fr)))
                 = length (gradients fr)).
  { unfold _forward.
    assert (Hrun : forall el f,
               length (gradients (snd (run_replicas el f)))
               = length (gradients f)).
    { induction el as [| b el IH]; intros f; simpl; [reflexivity |].
      specialize (IH (snd (_accumulate_gradients b f))).
      unfold _accumulate_gradients in *. simpl in *.
      destruct (run_replicas el _) as [outs f']. simpl in *.
      rewrite IH. clear IH.
      generalize (compute_gradients (variables (self f))
                    (iterations (self f)) b).
      induction (gradients f) as [| g gs IHg]; intros [| sg sgs]; simpl;
        auto. }
    specialize (Hrun element fr).
    now destruct (run_replicas element fr) as [outs f']. }
  unfold micro_step.
  destruct (_forward element fr) as [[loss num_words] acc].
  simpl in Hself, Hlast, Hstep, Hlen.
  destruct (is_apply_step a i) as [apply |] eqn:Happly.
  2: { unfold loop_body. rewrite Happly. simpl. exists [].
       rewrite app_nil_r, Hself, Hlast, Hstep, Hlen.
       repeat split; (lia || auto). }
  rewrite (loop_body_unfold _ _ _ _ _ _ Happly). cbv zeta.
  pose proof (_step_effect acc)
    as (Sit & _ & Sg & St & _ & _ & _ & Sl & _).
  cbv zeta in Sit, Sg, St, Sl.
  set (fr1 := if apply then _step acc else acc).
  assert (Hfr1 : trace (self fr1) = trace (self fr)
                 /\ last_step fr1 = last_step fr
                 /\ length (gradients fr1) = length (gradients fr)
                 /\ iterations (self fr)
                    <= iterations (self fr1) <= iterations (self fr) + 1).
  { subst fr1. destruct apply; rewrite <- Hself, <- Hlast, <- Hlen;
      repeat split; try (congruence || lia).
    rewrite Sg. apply length_map. }
  destruct Hfr1 as (Ht & Hl & Hg & Hit).
  set (s := iterations (self fr1)) in *.
  destruct (Z.eqb_spec s (last_step fr1)) as [Heq | Hne].
  - simpl. exists []. rewrite app_nil_r.
    split; [exact Ht |]. split; [constructor |]. split; [lia |].
    split; [exact Hg |]. split; [now left |].
    split; [reflexivity |]. left. unfold s in *. repeat split; congruence.
  - set (fr2 := with_last_step s _).
    destruct (cadence_actions_trace s loss fr2) as (new & Hnew & Hc & Hs).
    pose proof (post_processing_model a s loss fr2)
      as (Pit & _ & Pg & Pl & Pstep).
    cbv zeta in Pit, Pg, Pl, Pstep.
    simpl in Hnew, Pit, Pg, Pl, Pstep. rewrite Ht in Hnew.
    fold s in Pit, Pstep.
    assert (Hl' : last_step fr <> s) by congruence.
    assert (Hsaved : saved_steps new = []
                     \/ (saved_steps new = [s] /\ s = s
                         /\ last_step fr <> s))
      by (destruct Hs; [now left | now right]).
    destruct (max_step a) as [m |].
    + destruct (Z.eqb_spec s m) as [Hm | Hm]; simpl; exists new;
        rewrite Pit, Pg, Pl, Pstep;
        (split; [exact Hnew |]); (split; [exact Hc |]);
        (split; [lia |]); (split; [exact Hg |]);
        (split; [exact Hsaved |]); (split; [reflexivity |]).
      * repeat split; congruence.
      * right. repeat split; congruence.
    + simpl. exists new. rewrite Pit, Pg, Pl, Pstep.
      (split; [exact Hnew |]); (split; [exact Hc |]);
        (split; [lia |]); (split; [exact Hg |]);
        (split; [exact Hsaved |]); (split; [reflexivity |]).
      right. repeat split; (congruence || discriminate).
Qed.

End Events.

(** *** What a run emits *)

Section RunEvents.

Context `{Collaborators}.
Variable a : args.

Lemma saved_steps_app (t t' : list event) :
  saved_steps (t ++ t') = saved_steps t ++ saved_steps t'.
Proof. unfold saved_steps. apply flat_map_app. Qed.

(** The loop from any index and frame: the trace only grows, by events on
    cadence; the counter never decreases and advances at most once per
    element; the accumulators keep their number; [step], once bound, is
    the counter; and, from a frame whose [last_step] is not ahead of the
    counter, the checkpoints saved are tagged with strictly increasing
    steps, all after [last_step] and none after the final counter. *)
Lemma train_loop_events (dataset : list (list batch)) :
  forall (i : nat) (fr fr' : frame) (ex : loop_exit),
  train_loop a i dataset fr = (fr', ex) ->
  exists new : list event,
    trace (self fr') = trace (self fr) ++ new
    /\ Forall (on_cadence a) new
    /\ iterations (self fr) <= iterations (self fr')
       <= iterations (self fr) + Z.of_nat (length dataset)
    /\ length (gradients fr') = length (gradients fr)
    /\ (step fr = None \/ step fr = Some (iterations (self fr)) ->
        step fr' = None \/ step fr' = Some (iterations (self fr')))
    /\ (last_step fr <= iterations (self fr) ->
        last_step fr <= last_step fr' <= iterations (self fr')
        /\ StronglySorted Z.lt (saved_steps new)
        /\ Forall (fun s => last_step fr < s <= iterations (self fr'))
             (saved_steps new)).
Proof.
  induction dataset as [| element dataset IH]; intros i fr fr' ex Hloop;
    simpl in Hloop.
  - injection Hloop as <- <-. exists []. rewrite app_nil_r. simpl.
    split; [reflexivity |]. split; [constructor |]. split; [lia |].
    split; [reflexivity |]. split; [auto |].
    intros Hle. split; [lia |]. split; constructor.
  - destruct (micro_step_events a i element fr)
      as (new1 & Ht1 & Hc1 & Hit1 & Hg1 & Hs1 & Hctl).
    cbv zeta in Ht1, Hit1, Hg1, Hs1, Hctl.
    assert (Hone : forall fr1,
               frame_of (micro_step a i element fr) = fr1 ->
               (fr', ex) = (fr1, ex) ->
               (step fr1 = Some (iterations (self fr1))
                \/ (step fr1 = step fr
                    /\ iterations (self fr1) = iterations (self fr))) ->
               (last_step fr1 = last_step fr
                \/ last_step fr1 = iterations (self fr1)) ->
               exists new : list event,
                 trace (self fr') = trace (self fr) ++ new
                 /\ Forall (on_cadence a) new
                 /\ iterations (self fr) <= iterations (self fr')
                    <= iterations (self fr)
                       + Z.of_nat (length (element :: dataset))
                 /\ length (gradients fr') = length (gradients fr)
                 /\ (step fr = None \/ step fr = Some (iterations (self fr)) ->
                     step fr' = None
                     \/ step fr' = Some (iterations (self fr')))
                 /\ (last_step fr <= iterations (self fr) ->
                     last_step fr <= last_step fr' <= iterations (self fr')
                     /\ StronglySorted Z.lt (saved_steps new)
                     /\ Forall (fun s => last_step fr < s
                                         <= iterations (self fr'))
                          (saved_steps new))).
    { intros fr1 Hfr1 Hex Hstep Hlast. injection Hex as ->.
      rewrite Hfr1 in Ht1, Hit1, Hg1, Hs1.
      exists new1. split; [exact Ht1 |]. split; [exact Hc1 |].
      split; [simpl length; lia |]. split; [exact Hg1 |].
      split.
      - intros Hs. destruct Hstep as [-> | [-> ->]]; auto.
      - intros Hle. split; [lia |].
        destruct Hs1 as [-> | (-> & Hl & Hne)].
        + split; constructor.
        + split; [repeat constructor |].
          constructor; [lia | constructor]. }
    destruct (micro_step a i element fr) as [fr1 | fr1 | e fr1];
      simpl frame_of in *.
    + destruct Hctl as (Hstep & Hctl).
      destruct (IH _ _ _ _ Hloop)
        as (new2 & Ht2 & Hc2 & Hit2 & Hg2 & Hst2 & Hsort2).
      exists (new1 ++ new2).
      split; [now rewrite Ht2, Ht1, app_assoc |].
      split; [now apply Forall_app |].
      split; [simpl length; lia |].
      split; [congruence |].
      split; [intros _; apply Hst2; now right |].
      intros Hle.
      assert (Hle1 : last_step fr1 <= iterations (self fr1))
        by (destruct Hctl as [(? & ? & ?) | (? & ? & ?)]; lia).
      destruct (Hsort2 Hle1) as (Hl2 & Hsorted2 & Hrange2).
      assert (Hmono : last_step fr <= last_step fr1)
        by (destruct Hctl as [(? & ? & ?) | (? & ? & ?)]; lia).
      split; [lia |].
      rewrite saved_steps_app.
      destruct Hs1 as [-> | (-> & Hl & Hne)]; simpl.
      * split; [exact Hsorted2 |].
        eapply Forall_impl; [exact Hrange2 |]. simpl. intros s Hs. lia.
      * split.
        -- constructor; [exact Hsorted2 |].
           eapply Forall_impl; [exact Hrange2 |]. simpl. intros s Hs. lia.
        -- constructor; [lia |].
           eapply Forall_impl; [exact Hrange2 |]. simpl. intros s Hs. lia.
    + apply (Hone fr1 eq_refl); [congruence | |].
      * left. apply Hctl.
      * right. apply Hctl.
    + apply (Hone fr1 eq_refl); [congruence | |].
      * right. split; apply Hctl.
      * left. apply Hctl.
Qed.

End RunEvents.

Section CallEvents.

Context `{Collaborators}.

(** Whatever a call that enters the loop emits there is on cadence: a
    report only at a step where [report_steps] is due, a checkpoint only
    where [save_steps] is set and due, an evaluation only with an
    evaluator and where [eval_steps] is set and due, and never a warning.
    A call that returns then ends with one more checkpoint, tagged with
    the final iteration counter; a call that raises emits nothing more.
    The counter never decreases and advances at most once per element of
    the dataset. *)
Theorem call_emits_on_cadence (a : args) (tr : trainer)
    (dataset : list (list batch)) (Hnot : already_reached a tr = None) :
  exists new : list event,
    Forall (on_cadence a) new
    /\ iterations tr <= iterations (fst (Trainer_call a tr dataset))
       <= iterations tr + Z.of_nat (length dataset)
    /\ match snd (Trainer_call a tr dataset) with
       | Returned =>
           trace (fst (Trainer_call a tr dataset))
           = trace tr ++ new
             ++ [CheckpointSave
                   (iterations (fst (Trainer_call a tr dataset)))]
       | Raised _ =>
           trace (fst (Trainer_call a tr dataset)) = trace tr ++ new
       end.
Proof.
  unfold Trainer_call. rewrite Hnot.
  destruct (train_loop a 0 dataset (enter tr)) as [fr ex] eqn:Hloop.
  destruct (train_loop_events a dataset _ _ _ _ Hloop)
    as (new & Ht & Hc & Hit & _ & Hstep & _).
  simpl in Ht, Hit, Hstep. specialize (Hstep (or_introl eq_refl)).
  exists new. split; [exact Hc |].
  destruct ex as [| | e]; simpl; try (split; [exact Hit | exact Ht]).
  all: destruct Hstep as [-> | ->]; simpl;
    (split; [exact Hit |]); rewrite Ht; now rewrite <- ?app_assoc.
Qed.

(** In a call that starts at a non-negative iteration and returns, the
    checkpoints saved by the [save_steps] cadence are tagged with
    strictly increasing positive steps, none later than the final counter
    (so the cadence saves no step twice); the final checkpoint follows
    them. *)
Theorem cadence_checkpoints_strictly_increase (a : args) (tr : trainer)
    (dataset : list (list batch))
    (Hnot : already_reached a tr = None) (Hpos : 0 <= iterations tr)
    (Hret : snd (Trainer_call a tr dataset) = Returned) :
  exists by_cadence : list Z,
    saved_steps (trace (fst (Trainer_call a tr dataset)))
    = saved_steps (trace tr) ++ by_cadence
      ++ [iterations (fst (Trainer_call a tr dataset))]
    /\ StronglySorted Z.lt by_cadence
    /\ Forall (fun s => 0 < s
                        <= iterations (fst (Trainer_call a tr dataset)))
         by_cadence.
Proof.
  revert Hret. unfold Trainer_call. rewrite Hnot.
  destruct (train_loop a 0 dataset (enter tr)) as [fr ex] eqn:Hloop.
  destruct (train_loop_events a dataset _ _ _ _ Hloop)
    as (new & Ht & _ & _ & _ & Hstep & Hsort).
  simpl in Ht, Hstep, Hsort. specialize (Hstep (or_introl eq_refl)).
  destruct (Hsort Hpos) as (_ & Hsorted & Hrange).
  assert (Hfinal : forall s,
             step fr = Some s ->
             exists by_cadence : list Z,
               saved_steps (trace (self (checkpoint_save s fr)))
               = saved_steps (trace tr) ++ by_cadence
                 ++ [iterations (self (checkpoint_save s fr))]
               /\ StronglySorted Z.lt by_cadence
               /\ Forall (fun s' => 0 < s'
                            <= iterations (self (checkpoint_save s fr)))
                    by_cadence).
  { intros s Hs. exists (saved_steps new). simpl.
    rewrite Ht, !saved_steps_app. simpl.
    destruct Hstep as [Hn | Hsome]; [congruence |].
    rewrite Hs in Hsome. injection Hsome as ->.
    rewrite <- app_assoc. auto. }
  destruct ex as [| | e]; simpl; [| | discriminate];
    destruct (step fr) as [s |] eqn:Hs; simpl; try discriminate;
    intros _; now apply Hfinal.
Qed.

(** The trainer keeps one accumulator per variable the model has when the
    loop is entered, through every micro-step and however the loop
    ends. *)
Theorem accumulators_match_variables (a : args) (tr : trainer)
    (dataset : list (list batch)) :
  length (gradients (fst (train_loop a 0 dataset (enter tr))))
  = length (variables tr).
Proof.
  destruct (train_loop a 0 dataset (enter tr)) as [fr ex] eqn:Hloop.
  destruct (train_loop_events a dataset _ _ _ _ Hloop)
    as (_ & _ & _ & _ & Hlen & _).
  simpl in *. rewrite Hlen. apply length_map.
Qed.

End CallEvents.

(** *** Stopping at [max_step] *)

Section MaxStep.

Context `{Collaborators}.
Variable a : args.

Lemma train_loop_below_max_step (m : Z) (dataset : list (list batch)) :
  max_step a = Some m ->
  forall (i : nat) (fr fr' : frame) (ex : loop_exit),
  last_step fr < m -> iterations (self fr) < m ->
  train_loop a i dataset fr = (fr', ex) ->
  (ex = Broke /\ iterations (self fr') = m)
  \/ (ex <> Broke /\ iterations (self fr') < m).
Proof.
  intros Hmax. induction dataset as [| element dataset IH];
    intros i fr fr' ex Hlast Hit Hloop; simpl in Hloop.
  - injection Hloop as <- <-. right. split; [discriminate | exact Hit].
  - destruct (micro_step_events a i element fr)
      as (new & _ & _ & Hit1 & _ & _ & Hctl).
    cbv zeta in Hit1, Hctl.
    destruct (micro_step a i element fr) as [fr1 | fr1 | e fr1];
      simpl frame_of in *.
    + destruct Hctl as (_ & [(Hs & Hl & _) | (Hl & _ & Hne)]).
      * apply (IH (S i) fr1 fr' ex); [lia | lia | exact Hloop].
      * assert (iterations (self fr1) <> m) by congruence.
        apply (IH (S i) fr1 fr' ex); [lia | lia | exact Hloop].
    + injection Hloop as <- <-. left. split; [reflexivity |].
      destruct Hctl as (_ & Hs & _). congruence.
    + injection Hloop as <- <-. right. split; [discriminate |].
      destruct Hctl as (_ & -> & _). exact Hit.
Qed.



End MaxStep.

(** *** Accumulating gradients and counting words *)

Section Accumulators.

Context `{Collaborators}.

(** [zip] pairs accumulators and step gradients by position and stops at
    the shorter sequence: the accumulators keep their number whatever the
    number of step gradients; the [i]-th one receives the [i]-th step
    gradient when there is one and keeps its value otherwise; surplus
    step gradients are dropped.  No length mismatch is reported. *)
Theorem assign_add_zips (gradients step_gradients : list tensor) :
  length (assign_add gradients step_gradients) = length gradients
  /\ forall i : nat,
       assign_add gradients step_gradients !! i
       = match gradients !! i, step_gradients !! i with
         | Some gradient, Some step_gradient =>
             Some (tensor_add gradient step_gradient)
         | Some gradient, None => Some gradient
         | None, _ => None
         end.
Proof.
  revert step_gradients.
  induction gradients as [| g gs IH]; intros [| sg sgs];
    cbn [assign_add length].
  - split; [reflexivity | intros i; reflexivity].
  - split; [reflexivity | intros i; reflexivity].
  - split; [reflexivity |]. intros i.
    rewrite lookup_nil. now destruct ((g :: gs) !! i).
  - destruct (IH sgs) as [Hlen Hlook]. split; [now rewrite Hlen |].
    intros [| i]; [reflexivity | apply Hlook].
Qed.


(** Reducing the word counts of a single replica changes nothing: on one
    device [_forward] yields the word counts of its batch, and adds its
    step gradients to the accumulators. *)
Theorem _forward_single_replica (b : batch) (fr : frame) :
  snd (fst (_forward [b] fr)) = count_words b
  /\ gradients (snd (_forward [b] fr))
     = assign_add (gradients fr)
         (compute_gradients (variables (self fr)) (iterations (self fr)) b).
Proof.
  unfold _forward, reduce_sum_words. simpl. split; [| reflexivity].
  apply map_eq. intros key. rewrite lookup_union_with, lookup_empty.
  now destruct (count_words b !! key).
Qed.

End Accumulators.

Section WordTotals.

Context `{Collaborators}.
Variable a : args.

Lemma post_processing_words (s : Z) (loss : scalar) (fr : frame) :
  accum_num_words (post_processing a s loss fr)
  = if np_mod s (report_steps a) =? 0
    then (fun _ => 0) <$> accum_num_words fr
    else accum_num_words fr.
Proof.
  unfold post_processing.
  assert (He : forall f, accum_num_words (evaluate_if_due a s f)
                         = accum_num_words f).
  { intros f. unfold evaluate_if_due. destruct (evaluator a); [| reflexivity].
    destruct (eval_steps a); [| reflexivity].
    now destruct (np_mod s _ =? 0). }
  assert (Hs : forall f, accum_num_words (save_if_due a s f)
                         = accum_num_words f).
  { intros f. unfold save_if_due. destruct (save_steps a); [| reflexivity].
    now destruct (np_mod s _ =? 0). }
  rewrite He, Hs. unfold report_if_due.
  now destruct (np_mod s (report_steps a) =? 0).
Qed.


End WordTotals.

(** *** Without accumulation *)

Section NoAccumulation.

Context `{Collaborators}.
Variable a : args.

Lemma applications_1 (n i : nat) : applications 1 i n = Z.of_nat n.
Proof.
  revert i. induction n as [| n IH]; intros i; [reflexivity |].
  simpl applications. rewrite IH, Z.mod_1_r, orb_true_r. lia.
Qed.

Lemma is_apply_step_1 (i : nat) :
  accum_steps a = 1 -> is_apply_step a i = Some true.
Proof.
  intros Hacc. rewrite is_apply_step_nonzero by lia.
  now rewrite Hacc, Z.mod_1_r, orb_true_r.
Qed.

Lemma train_loop_accum_1_gradients (dataset : list (list batch)) :
  accum_steps a = 1 ->
  forall (i : nat) (fr fr' : frame) (ex : loop_exit),
  train_loop a i dataset fr = (fr', ex) ->
  dataset <> [] ->
  exists gs : list tensor, gradients fr' = map zeros_like gs.
Proof.
  intros Hacc. induction dataset as [| element dataset IH];
    intros i fr fr' ex Hloop Hne; [contradiction |].
  simpl in Hloop.
  pose proof (micro_step_model a i element fr true (is_apply_step_1 i Hacc))
    as (_ & _ & Hg & _ & Hctl).
  pose proof (_step_effect (snd (_forward element fr))) as (_ & _ & Sg & _).
  cbv zeta in Hg, Hctl, Sg. rewrite Sg in Hg.
  destruct (micro_step a i element fr) as [fr1 | fr1 | e fr1];
    simpl frame_of in *; [| | contradiction].
  - destruct dataset as [| element' dataset].
    + simpl in Hloop. injection Hloop as <- <-. eauto.
    + apply (IH _ _ _ _ Hloop). discriminate.
  - injection Hloop as <- <-. eauto.
Qed.


End NoAccumulation.

(** *** Reports *)

Section Reports.

Context `{Collaborators}.
Variable a : args.

(** The clock was read last for [last_report_time]. *)
Definition reads_in_step (fr : frame) : Prop :=
  exists j : nat,
    clock (self fr) = S j /\ last_report_time fr = time_time j.

Lemma cadence_actions_reports (s : Z) (loss : scalar) (fr : frame) :
  reads_in_step fr ->
  exists new : list event,
    trace (self (post_processing a s loss fr)) = trace (self fr) ++ new
    /\ Forall (well_reported (learning_rate (self fr))) new
    /\ reads_in_step (post_processing a s loss fr)
    /\ learning_rate (self (post_processing a s loss fr))
       = learning_rate (self fr).
Proof.
  intros (j & Hclock & Htime). unfold post_processing.
  assert (Hr : exists r,
             trace (self (report_if_due a s loss fr)) = trace (self fr) ++ r
             /\ Forall (well_reported (learning_rate (self fr))) r
             /\ reads_in_step (report_if_due a s loss fr)
             /\ learning_rate (self (report_if_due a s loss fr))
                = learning_rate (self fr)).
  { unfold report_if_due. destruct (np_mod s (report_steps a) =? 0).
    - eexists [_]. simpl. split; [reflexivity |]. split; [| split].
      + constructor; [| constructor]. simpl. split; [reflexivity |].
        exists j, (accum_num_words fr). now rewrite Hclock, Htime.
      + exists (S j). simpl. now rewrite Hclock.
      + reflexivity.
    - exists []. rewrite app_nil_r. repeat split; [constructor |].
      now exists j. }
  destruct Hr as (r & Hr & Hrw & Hrr & Hrl).
  set (fr1 := report_if_due a s loss fr) in *.
  assert (Hs : exists c,
             trace (self (save_if_due a s fr1)) = trace (self fr1) ++ c
             /\ Forall (well_reported (learning_rate (self fr))) c
             /\ reads_in_step (save_if_due a s fr1)
             /\ learning_rate (self (save_if_due a s fr1))
                = learning_rate (self fr1)).
  { unfold save_if_due. destruct (save_steps a) as [n |];
      [destruct (np_mod s n =? 0) |].
    - exists [CheckpointSave s]. simpl. repeat split; auto; repeat constructor.
    - exists []. rewrite app_nil_r. repeat split; auto; constructor.
    - exists []. rewrite app_nil_r. repeat split; auto; constructor. }
  destruct Hs as (c & Hs & Hsw & Hsr & Hsl).
  set (fr2 := save_if_due a s fr1) in *.
  assert (He : exists e,
             trace (self (evaluate_if_due a s fr2)) = trace (self fr2) ++ e
             /\ Forall (well_reported (learning_rate (self fr))) e
             /\ reads_in_step (evaluate_if_due a s fr2)
             /\ learning_rate (self (evaluate_if_due a s fr2))
                = learning_rate (self fr2)).
  { unfold evaluate_if_due. destruct (evaluator a);
      [destruct (eval_steps a) as [n |]; [destruct (np_mod s n =? 0) |] |].
    - exists [Evaluate s]. simpl. repeat split; auto; repeat constructor.
    - exists []. rewrite app_nil_r. repeat split; auto; constructor.
    - exists []. rewrite app_nil_r. repeat split; auto; constructor.
    - exists []. rewrite app_nil_r. repeat split; auto; constructor. }
  destruct He as (e & He & Hew & Her & Hel).
  exists (r ++ c ++ e). split; [| split; [| split]].
  - rewrite He, Hs, Hr. now rewrite <- !app_assoc.
  - rewrite !Forall_app. auto.
  - exact Her.
  - congruence.
Qed.

Lemma micro_step_reports (i : nat) (element : list batch) (fr : frame) :
  reads_in_step fr ->
  let fr' := frame_of (micro_step a i element fr) in
  exists new : list event,
    trace (self fr') = trace (self fr) ++ new
    /\ Forall (well_reported (learning_rate (self fr))) new
    /\ reads_in_step fr'
    /\ learning_rate (self fr') = learning_rate (self fr).
Proof.
  intros Hreads. cbv zeta.
  pose proof (_forward_frame element fr) as (Hself & _ & Htime & _).
  unfold micro_step.
  destruct (_forward element fr) as [[loss num_words] acc].
  simpl in Hself, Htime.
  assert (Hacc : reads_in_step acc).
  { destruct Hreads as (j & Hc & Ht). exists j.
    now rewrite Hself, Htime. }
  destruct (is_apply_step a i) as [apply |] eqn:Happly.
  2: { unfold loop_body. rewrite Happly. simpl. exists [].
       rewrite app_nil_r, Hself. repeat split; [constructor | exact Hacc]. }
  rewrite (loop_body_unfold _ _ _ _ _ _ Happly). cbv zeta.
  set (fr1 := if apply then _step acc else acc).
  assert (Hfr1 : trace (self fr1) = trace (self fr)
                 /\ reads_in_step fr1
                 /\ learning_rate (self fr1) = learning_rate (self fr)).
  { subst fr1. destruct apply; [| now rewrite Hself].
    unfold _step, _apply_gradients.
    destruct (update _ _ _) as [slots' variables']. simpl.
    rewrite Hself. repeat split.
    destruct Hacc as (j & Hc & Ht). exists j. simpl.
    now rewrite <- Hself. }
  destruct Hfr1 as (Ht1 & Hr1 & Hl1).
  set (s := iterations (self fr1)).
  set (fr2 := with_step s _).
  assert (Hfr2 : reads_in_step fr2 /\ reads_in_step (with_last_step s fr2))
    by (split; destruct Hr1 as (j & Hc & Ht); now exists j).
  destruct Hfr2 as (Hr2 & Hr2').
  destruct (s =? last_step fr1).
  - simpl. exists []. rewrite app_nil_r. repeat split; auto; constructor.
  - destruct (cadence_actions_reports s loss (with_last_step s fr2) Hr2')
      as (new & Hnew & Hw & Hr3 & Hl3).
    simpl in Hnew, Hw, Hl3. rewrite Ht1 in Hnew. rewrite Hl1 in Hw, Hl3.
    destruct (max_step a) as [m |]; [destruct (s =? m) |];
      cbn [frame_of]; exists new; auto.
Qed.


End Reports.

(** *** Concrete runs *)

Section ConcreteRuns.

Import Example.

(** Ten batches with [max_step = 4] and [save_steps = 2]: what the loop
    emits is on cadence, and the final checkpoint is tagged 4. *)
Lemma call_emits_on_cadence_witness :
  exists new : list event,
    Forall (on_cadence (with_max_step 4 2)) new
    /\ trace (fst (Trainer_call (with_max_step 4 2) (trainer_at 0)
                     (dataset 10)))
       = trace (trainer_at 0) ++ new ++ [CheckpointSave 4].
Proof.
  destruct (call_emits_on_cadence (H := collaborators) (with_max_step 4 2)
              (trainer_at 0) (dataset 10) ltac:(reflexivity))
    as (new & Hc & _ & Ht).
  exists new. split; [exact Hc | exact Ht].
Defined.

(** Seven batches with [save_steps = 2] and no [max_step]: the cadence
    saves 2, 4 and 6, the final checkpoint is tagged 7. *)
Lemma cadence_checkpoints_strictly_increase_witness :
  exists by_cadence : list Z,
    saved_steps (trace (fst (Trainer_call (with_save_steps 2) (trainer_at 0)
                               (dataset 7))))
    = by_cadence ++ [7]
    /\ StronglySorted Z.lt by_cadence.
Proof.
  destruct (cadence_checkpoints_strictly_increase (H := collaborators)
              (with_save_steps 2) (trainer_at 0) (dataset 7)
              ltac:(reflexivity) ltac:(simpl; lia)
              ltac:(vm_compute; reflexivity))
    as (by_cadence & Hs & Hsorted & _).
  exists by_cadence. split; [exact Hs | exact Hsorted].
Defined.






End ConcreteRuns.

End TrainingBehaviour.
